(** * OCRMaster, [ocr/utils.py]: training and evaluation utilities

    A shallow embedding of the running-average accumulator
    ([AverageMeter]), the checkpoint retention policy
    ([FilesLimitControl]), the partial weight loader
    ([load_pretrain_model]) and the validation loop ([val_loop]),
    together with the properties stated for them.

    Conventions of the embedding.
    - Python numbers (the metric values, the averages, clock readings) are
      exact rationals [Qc]; integers are [Z].  Rounding of binary floating
      point is not modelled.
    - A Python statement sequence that mutates an object is a state
      transformer [Py S A := S -> S * Outcome A]: it always yields the state
      it left behind, and either a returned value or the exception that
      propagates out of it.
    - The file system, the heap of dict objects and the log are explicit
      components of the [World]. *)

From Stdlib Require Import QArith Qcanon Qround.
From stdpp Require Import base numbers list strings gmap fin_maps pretty.

Local Open Scope Z_scope.

(** ** Exceptions and the state-and-exception monad *)

Inductive Exn : Set :=
  | ZeroDivisionError
  | FileNotFoundError
  | IsADirectoryError
  | UnpicklingError
  | KeyError
  | IndexError.

Inductive Outcome (A : Type) : Type :=
  | Return (a : A)
  | Raise (e : Exn).
Arguments Return {A} a.
Arguments Raise {A} e.

Definition Py (S A : Type) : Type := S → S * Outcome A.

Definition py_ret {S A} (a : A) : Py S A := λ s, (s, Return a).
Definition py_raise {S A} (e : Exn) : Py S A := λ s, (s, Raise e).
Definition py_bind {S A B} (f : A → Py S B) (m : Py S A) : Py S B :=
  λ s, match m s with
       | (s', Return a) => f a s'
       | (s', Raise e) => (s', Raise e)
       end.
Definition py_get {S} : Py S S := λ s, (s, Return s).
Definition py_modify {S} (f : S → S) : Py S unit := λ s, (f s, Return tt).

#[global] Instance py_mret {S} : MRet (Py S) := @py_ret S.
#[global] Instance py_mbind {S} : MBind (Py S) := @py_bind S.

(** [for x in xs: body x], stopping at the first exception. *)
Fixpoint py_for {S A} (xs : list A) (body : A → Py S unit) : Py S unit :=
  match xs with
  | [] => mret tt
  | x :: xs' => _ ← body x; py_for xs' body
  end.

(** ** [AverageMeter] (utils.py, lines 61-74) *)

Module AverageMeter.

Local Open Scope Qc_scope.

Record t : Type := Meter { avg : Qc; sum : Qc; count : Z }.

(** [reset]: all three attributes are set to 0. *)
Definition reset : t := {| avg := 0; sum := 0; count := 0%Z |}.

(** [__init__] only calls [reset]. *)
Definition init : t := reset.

(** [update(val, n)]:
<<
      self.sum += val * n
      self.count += n
      self.avg = self.sum / self.count
>>
    The two augmented assignments are done before the division is
    evaluated; dividing by a zero count raises [ZeroDivisionError] and
    the assignment to [avg] does not happen. *)
Definition update (val : Qc) (n : Z) : Py t unit :=
  _ ← py_modify (λ self, {| avg := avg self;
                            sum := sum self + val * Qc_of_Z n;
                            count := count self |});
  _ ← py_modify (λ self, {| avg := avg self;
                            sum := sum self;
                            count := (count self + n)%Z |});
  self ← py_get;
  if (count self =? 0)%Z then py_raise ZeroDivisionError
  else py_modify (λ self, {| avg := sum self / Qc_of_Z (count self);
                             sum := sum self;
                             count := count self |}).

(** A sequence of [update] calls on one meter. *)
Definition updates (calls : list (Qc * Z)) : Py t unit :=
  py_for calls (λ c, update c.1 c.2).

(** The mathematical quantities the average is compared with. *)
Fixpoint weighted_sum (calls : list (Qc * Z)) : Qc :=
  match calls with
  | [] => 0
  | (v, n) :: rest => v * Qc_of_Z n + weighted_sum rest
  end.

Fixpoint total_weight (calls : list (Qc * Z)) : Z :=
  match calls with
  | [] => 0%Z
  | (_, n) :: rest => (n + total_weight rest)%Z
  end.

End AverageMeter.

(** ** The world: file system, heap of dict objects, log *)

(** A tensor, as far as this file looks at it: its shape (a [torch.Size])
    and its entries. *)
Record Tensor : Type := { shape : list nat; data : list Qc }.

(** A Python [dict] from parameter names to tensors: the entries in
    insertion order.  Lookup and assignment go by the first entry with the
    key, assignment to a key that is present keeps its position. *)
Abbreviation Dict := (list (string * Tensor)).

Fixpoint dict_get (d : Dict) (key : string) : option Tensor :=
  match d with
  | [] => None
  | (k, v) :: rest => if decide (k = key) then Some v else dict_get rest key
  end.

Fixpoint dict_set (d : Dict) (key : string) (v : Tensor) : Dict :=
  match d with
  | [] => [(key, v)]
  | (k, w) :: rest =>
      if decide (k = key) then (k, v) :: rest else (k, w) :: dict_set rest key v
  end.

Definition dict_keys (d : Dict) : list string := d.*1.

(** What a path of the file system names.  A regular file carries what
    unpickling it yields: a mapping of tensors, or nothing usable. *)
Inductive Node : Type :=
  | RegularFile (payload : option Dict)
  | Directory.

Inductive Level : Set := DEBUG | INFO.

Abbreviation Logger := string (only parsing).

(** One call of a logging method on a logger. *)
Record LogRecord : Type :=
  { logger_name : Logger; level : Level; message : string }.

Inductive Handler : Type :=
  | StreamHandler
  | FileHandler (log_path : string).

Abbreviation loc := nat (only parsing).

Record World : Type :=
  { heap : list Dict;                (* dict objects, by address *)
    disk : gmap string Node;
    log : list LogRecord;            (* logging calls, oldest first *)
    handlers : list Handler }.       (* handlers of the module's logger *)

Definition set_heap (f : list Dict → list Dict) (w : World) : World :=
  {| heap := f (heap w); disk := disk w; log := log w; handlers := handlers w |}.
Definition set_disk (f : gmap string Node → gmap string Node) (w : World) : World :=
  {| heap := heap w; disk := f (disk w); log := log w; handlers := handlers w |}.
Definition set_log (f : list LogRecord → list LogRecord) (w : World) : World :=
  {| heap := heap w; disk := disk w; log := f (log w); handlers := handlers w |}.
Definition set_handlers (f : list Handler → list Handler) (w : World) : World :=
  {| heap := heap w; disk := disk w; log := log w; handlers := f (handlers w) |}.

(** *** Dict objects on the heap *)

Definition dict_alloc (d : Dict) : Py World loc :=
  λ w, (set_heap (λ h, h ++ [d]) w, Return (length (heap w))).

Definition dict_contains (r : loc) (key : string) : Py World bool :=
  λ w, match heap w !! r with
       | Some d => (w, Return (bool_decide (is_Some (dict_get d key))))
       | None => (w, Raise KeyError)
       end.

Definition dict_getitem (r : loc) (key : string) : Py World Tensor :=
  λ w, match heap w !! r ≫= λ d, dict_get d key with
       | Some v => (w, Return v)
       | None => (w, Raise KeyError)
       end.

Definition dict_setitem (r : loc) (key : string) (v : Tensor) : Py World unit :=
  λ w, match heap w !! r with
       | Some d => (set_heap (λ h, <[r := dict_set d key v]> h) w, Return tt)
       | None => (w, Raise KeyError)
       end.

Definition dict_keys_of (r : loc) : Py World (list string) :=
  λ w, match heap w !! r with
       | Some d => (w, Return (dict_keys d))
       | None => (w, Raise KeyError)
       end.

(** *** [os.path.exists], [os.remove], [torch.load]

    [os.path.exists] holds of files and directories alike; [os.remove]
    deletes a regular file and raises on a directory or on a path that
    names nothing.  Permissions and races with other processes are not
    modelled. *)

Definition os_path_exists (path : string) : Py World bool :=
  λ w, (w, Return (bool_decide (is_Some (disk w !! path)))).

Definition os_remove (path : string) : Py World unit :=
  λ w, match disk w !! path with
       | Some (RegularFile _) => (set_disk (delete path) w, Return tt)
       | Some Directory => (w, Raise IsADirectoryError)
       | None => (w, Raise FileNotFoundError)
       end.

(** [torch.load] builds a fresh dict object from the file's content. *)
Definition torch_load (path : string) : Py World loc :=
  λ w, match disk w !! path with
       | Some (RegularFile (Some d)) => dict_alloc d w
       | Some (RegularFile None) => (w, Raise UnpicklingError)
       | Some Directory => (w, Raise IsADirectoryError)
       | None => (w, Raise FileNotFoundError)
       end.

(** *** Logging (utils.py, lines 12-30) *)

Definition module_logger : Logger := "ocr.utils".

Definition logger_info (logger : Logger) (msg : string) : Py World unit :=
  py_modify (set_log (λ l, l ++ [{| logger_name := logger; level := INFO;
                                    message := msg |}])).

(** [logging.FileHandler(log_path)] opens the file for appending. *)
Definition open_for_append (path : string) : Py World unit :=
  λ w, match disk w !! path with
       | Some (RegularFile _) => (w, Return tt)
       | Some Directory => (w, Raise IsADirectoryError)
       | None => (set_disk (<[path := RegularFile None]>) w, Return tt)
       end.

Definition configure_logging (log_path : option string) : Py World Logger :=
  _ ← py_modify (set_handlers (λ hs, hs ++ [StreamHandler]));
  _ ← match log_path with
      | Some p => _ ← open_for_append p;
                  py_modify (set_handlers (λ hs, hs ++ [FileHandler p]))
      | None => mret tt
      end;
  mret module_logger.

(** ** [FilesLimitControl] (utils.py, lines 77-96) *)

Record FilesLimitControl : Type :=
  { saved_weights_paths : list string;
    max_weights_to_save : Z;
    logger : Logger }.

(** [FilesLimitControl(logger=None, max_weights_to_save=2)]; an omitted
    argument is [None] here. *)
Definition FilesLimitControl_init (logger : option Logger)
    (max_weights_to_save : option Z) : Py World FilesLimitControl :=
  lg ← match logger with
       | Some l => mret l
       | None => configure_logging None
       end;
  mret {| saved_weights_paths := [];
          max_weights_to_save := default 2 max_weights_to_save;
          logger := lg |}.

(** The state a method of the object runs in: the object and the world. *)
Definition on_self {A} (f : FilesLimitControl → FilesLimitControl * Outcome A)
  : Py (FilesLimitControl * World) A :=
  λ s, let '(self', r) := f s.1 in ((self', s.2), r).

Definition on_world {A} (m : Py World A) : Py (FilesLimitControl * World) A :=
  λ s, let '(w', r) := m s.2 in ((s.1, w'), r).

Definition with_paths (f : list string → list string) (self : FilesLimitControl)
  : FilesLimitControl :=
  {| saved_weights_paths := f (saved_weights_paths self);
     max_weights_to_save := max_weights_to_save self;
     logger := logger self |}.

(** [self.saved_weights_paths.pop(0)] *)
Definition pop0 (self : FilesLimitControl) : FilesLimitControl * Outcome string :=
  match saved_weights_paths self with
  | [] => (self, Raise IndexError)
  | p :: rest => (with_paths (λ _, rest) self, Return p)
  end.

Definition removed_msg (path : string) : string :=
  "Weigths removed '" +:+ path +:+ "'".

(** [__call__(save_path)] *)
Definition FilesLimitControl_call (save_path : string)
  : Py (FilesLimitControl * World) unit :=
  _ ← on_self (λ self, (with_paths (λ l, l ++ [save_path]) self, Return tt));
  self ← on_self (λ self, (self, Return self));
  if Z.of_nat (length (saved_weights_paths self)) >? max_weights_to_save self
  then
    old_weights_path ← on_self pop0;
    present ← on_world (os_path_exists old_weights_path);
    if present : bool then
      _ ← on_world (os_remove old_weights_path);
      on_world (logger_info (logger self) (removed_msg old_weights_path))
    else mret tt
  else mret tt.

(** Registering paths one after the other. *)
Definition register_all (paths : list string) : Py (FilesLimitControl * World) unit :=
  py_for paths FilesLimitControl_call.

(** The paths kept and the paths dropped once [paths] have been
    registered with a limit of [n] files, and the log record of a removal. *)
Definition retained (n : nat) (paths : list string) : list string :=
  drop (length paths - n)%nat paths.

Definition evicted (n : nat) (paths : list string) : list string :=
  take (length paths - n)%nat paths.

Definition removed_record (lg : Logger) (path : string) : LogRecord :=
  {| logger_name := lg; level := INFO; message := removed_msg path |}.

Definition remove_all (paths : list string) (d : gmap string Node)
  : gmap string Node :=
  foldr delete d paths.

(** The world after the paths [ev] have been dropped one after the other
    from [w]: those that were files are gone, each with its log record. *)
Definition after_evictions (lg : Logger) (ev : list string) (w : World) : World :=
  set_log (λ l, l ++ (removed_record lg <$>
                        filter (λ p, is_Some (disk w !! p)) ev))
          (set_disk (remove_all ev) w).

(** The scenario of the specification: a limit of two files, and three
    checkpoint files on the disk. *)
Definition scenario_control : FilesLimitControl :=
  {| saved_weights_paths := []; max_weights_to_save := 2; logger := module_logger |}.

Definition scenario_world : World :=
  {| heap := [];
     disk := <["w1" := RegularFile None]>
               (<["w2" := RegularFile None]> {["w3" := RegularFile None]});
     log := [];
     handlers := [StreamHandler] |}.

(** ** [load_pretrain_model] (utils.py, lines 99-114) *)

(** A model, as far as [state_dict()] shows it. *)
Record Model : Type := { parameters : Dict }.

(** [model.state_dict()] returns a fresh dict of the model's tensors. *)
Definition state_dict (model : Model) : Py World loc :=
  dict_alloc (parameters model).

Definition not_loaded_msg (key : string) : string :=
  "Weights " +:+ key +:+ " were not loaded".

(** The body of the loop over [new_dict.items()] (lines 107-113). *)
Definition merge_step (logger : Logger) (old_dict new_dict : loc) (key : string)
  : Py World unit :=
  present ← dict_contains old_dict key;
  if present : bool then
    new_w ← dict_getitem new_dict key;
    old_w ← dict_getitem old_dict key;
    if bool_decide (shape new_w = shape old_w)
    then dict_setitem new_dict key old_w
    else logger_info logger (not_loaded_msg key)
  else logger_info logger (not_loaded_msg key).

(** The loop (lines 106-113).  The assignments in the body rebind keys that
    are present, so the set of keys being iterated does not change. *)
Definition merge_loop (logger : Logger) (old_dict new_dict : loc) : Py World unit :=
  keys ← dict_keys_of new_dict;
  py_for keys (merge_step logger old_dict new_dict).

Definition load_pretrain_model (weights_path : string) (model : Model)
    (logger : option Logger) : Py World loc :=
  lg ← match logger with
       | Some l => mret l
       | None => configure_logging None
       end;
  old_dict ← torch_load weights_path;
  new_dict ← state_dict model;
  _ ← merge_loop lg old_dict new_dict;
  mret new_dict.

(** What the loader is specified to compute, on values: the target entry is
    replaced by the source entry of the same key when there is one and the
    shapes agree. *)
Definition loadable (source : Dict) (key : string) (v : Tensor) : bool :=
  match dict_get source key with
  | Some w => bool_decide (shape v = shape w)
  | None => false
  end.

Definition transfer (source : Dict) (key : string) (v : Tensor) : Tensor :=
  match dict_get source key with
  | Some w => if bool_decide (shape v = shape w) then w else v
  | None => v
  end.

(** One round of the loop, on the value of the target dict. *)
Definition merge_entry (source : Dict) (target : Dict) (key : string) : Dict :=
  match dict_get target key with
  | Some v => if loadable source key v
              then dict_set target key (transfer source key v)
              else target
  | None => target
  end.

Definition merged (source target : Dict) : Dict :=
  foldl (merge_entry source) target (dict_keys target).

(** The keys of the target reported as not loaded, in iteration order. *)
Definition skipped (source target : Dict) (key : string) : bool :=
  match dict_get target key with
  | Some v => negb (loadable source key v)
  | None => true
  end.

Definition not_loaded (source target : Dict) : list string :=
  List.filter (skipped source target) (dict_keys target).

Definition not_loaded_record (lg : Logger) (key : string) : LogRecord :=
  {| logger_name := lg; level := INFO; message := not_loaded_msg key |}.

(** The logger in use, and the world once it has been set up. *)
Definition chosen_logger (logger : option Logger) : Logger :=
  default module_logger logger.

Definition after_logging_setup (logger : option Logger) (w : World) : World :=
  match logger with
  | Some _ => w
  | None => set_handlers (λ hs, hs ++ [StreamHandler]) w
  end.

(** The scenario of the specification: the target has "a" of shape (3,3)
    and "b" of shape (2,2), the checkpoint has "a" of shape (3,3) filled
    with ones and "c" of shape (2,2). *)
Definition zeros (dims : list nat) : Tensor :=
  {| shape := dims; data := replicate (foldr Nat.mul 1%nat dims) 0%Qc |}.
Definition ones (dims : list nat) : Tensor :=
  {| shape := dims; data := replicate (foldr Nat.mul 1%nat dims) 1%Qc |}.

Definition scenario_model : Model :=
  {| parameters := [("a", zeros [3; 3]); ("b", zeros [2; 2])]%nat |}.
Definition scenario_checkpoint : Dict :=
  [("a", ones [3; 3]); ("c", ones [2; 2])]%nat.
Definition checkpoint_world : World :=
  {| heap := [];
     disk := {["ckpt.pth" := RegularFile (Some scenario_checkpoint)]};
     log := [];
     handlers := [] |}.

(** ** [sec2min] and [val_loop] (utils.py, lines 33-58) *)

(** [int(x)], as the [%d] conversion applies it: truncation towards zero. *)
Definition trunc (x : Qc) : Z := Z.quot (Qnum x) (Z.pos (Qden x)).

(** [sec2min(s)]:
<<
      m = math.floor(s / 60)
      s -= m * 60
      return '%dm %ds' % (m, s)
>> *)
Definition sec2min (s : Qc) : string :=
  let m := Qfloor (s / Qc_of_Z 60)%Qc in
  let s := (s - Qc_of_Z (m * 60))%Qc in
  pretty m +:+ "m " +:+ pretty (trunc s) +:+ "s".

(** The weighted mean of (value, weight) pairs. *)
Definition weighted_average (calls : list (Qc * Z)) : Qc :=
  (AverageMeter.weighted_sum calls / Qc_of_Z (AverageMeter.total_weight calls))%Qc.

Section ValLoop.

(** The collaborators of the loop are opaque: the prediction function,
    the three scoring functions of [ocr.metrics], and the rendering of a
    number by the format specification [.4f]. *)
Context {Images Aux1 Aux2 Net Decoder Device : Type}.
Variable predict : Images → Net → Decoder → Device → list string.
Variables get_accuracy wer cer : list string → list string → Qc.
Variable format_4f : Qc → string.

(** One item of the data loader: [images, texts, _, _]. *)
Definition Batch : Type := Images * list string * Aux1 * Aux2.

Definition batch_texts (batch : Batch) : list string := batch.1.1.2.

(** The three local meters of [val_loop]. *)
Record Meters : Type :=
  { acc_avg : AverageMeter.t; wer_avg : AverageMeter.t; cer_avg : AverageMeter.t }.

Definition on_acc {A} (m : Py AverageMeter.t A) : Py Meters A :=
  λ s, let '(a, r) := m (acc_avg s) in
       ({| acc_avg := a; wer_avg := wer_avg s; cer_avg := cer_avg s |}, r).
Definition on_wer {A} (m : Py AverageMeter.t A) : Py Meters A :=
  λ s, let '(a, r) := m (wer_avg s) in
       ({| acc_avg := acc_avg s; wer_avg := a; cer_avg := cer_avg s |}, r).
Definition on_cer {A} (m : Py AverageMeter.t A) : Py Meters A :=
  λ s, let '(a, r) := m (cer_avg s) in
       ({| acc_avg := acc_avg s; wer_avg := wer_avg s; cer_avg := a |}, r).

(** The body of the loop (lines 40-44). *)
Definition val_step (model : Net) (decoder : Decoder) (device : Device)
    (batch : Batch) : Py Meters unit :=
  let '(images, texts, _, _) := batch in
  let batch_size := Z.of_nat (length texts) in
  let text_preds := predict images model decoder device in
  _ ← on_acc (AverageMeter.update (get_accuracy texts text_preds) batch_size);
  _ ← on_wer (AverageMeter.update (wer texts text_preds) batch_size);
  on_cer (AverageMeter.update (cer texts text_preds) batch_size).

(** The line logged at the end (lines 47-51). *)
Definition validation_msg (acc wer cer : Qc) (loop_time : string) : string :=
  "Validation, " +:+
  "acc: " +:+ format_4f acc +:+ ", " +:+
  "wer: " +:+ format_4f wer +:+ ", " +:+
  "cer: " +:+ format_4f cer +:+ ", " +:+
  "loop_time: " +:+ loop_time.

(** [val_loop]; [strat_time] and [end_time] are what the two calls of
    [time.time()] answer, before and after the loop.  The [tqdm] wrapper
    yields the items of the data loader unchanged; its progress bar is
    left out. *)
Definition val_loop (data_loader : list Batch) (model : Net)
    (decoder : Decoder) (logger : Logger) (device : Device)
    (strat_time end_time : Qc) : Py World Qc :=
  λ w,
    let meters := {| acc_avg := AverageMeter.init;
                     wer_avg := AverageMeter.init;
                     cer_avg := AverageMeter.init |} in
    match py_for data_loader (val_step model decoder device) meters with
    | (ms, Return _) =>
        let loop_time := sec2min (end_time - strat_time)%Qc in
        (_ ← logger_info logger
               (validation_msg (AverageMeter.avg (acc_avg ms))
                               (AverageMeter.avg (wer_avg ms))
                               (AverageMeter.avg (cer_avg ms)) loop_time);
         mret (AverageMeter.avg (acc_avg ms))) w
    | (_, Raise e) => (w, Raise e)
    end.

(** The (value, weight) pairs a metric contributes over the batches. *)
Definition scored (metric : list string → list string → Qc)
    (model : Net) (decoder : Decoder) (device : Device)
    (data_loader : list Batch) : list (Qc * Z) :=
  map (λ batch : Batch,
         let '(images, texts, _, _) := batch in
         (metric texts (predict images model decoder device),
          Z.of_nat (length texts)))
      data_loader.

End ValLoop.

(** Stand-ins for the opaque collaborators, to run the loop on examples. *)
Definition sample_predict (images model decoder device : unit) : list string :=
  ["cat"; "dog"].
Definition sample_accuracy (texts preds : list string) : Qc :=
  if decide (texts = preds) then 1%Qc else 0%Qc.
Definition sample_error (texts preds : list string) : Qc :=
  if decide (texts = preds) then 0%Qc else 1%Qc.
Definition sample_format (x : Qc) : string :=
  pretty (Qnum x) +:+ "/" +:+ pretty (Z.pos (Qden x)).

(** * Properties *)

(** ** The monad *)

Lemma py_bind_unfold {S A B} (m : Py S A) (f : A → Py S B) (s : S) :
  (m ≫= f) s = match m s with
               | (s', Return a) => f a s'
               | (s', Raise e) => (s', Raise e)
               end.
Proof. reflexivity. Qed.

Lemma py_for_nil {S A} (body : A → Py S unit) (s : S) :
  py_for [] body s = (s, Return tt).
Proof. reflexivity. Qed.

Lemma py_for_cons {S A} (x : A) (xs : list A) (body : A → Py S unit) (s : S) :
  py_for (x :: xs) body s = match body x s with
                            | (s', Return _) => py_for xs body s'
                            | (s', Raise e) => (s', Raise e)
                            end.
Proof. reflexivity. Qed.

Lemma py_for_app {S A} (xs ys : list A) (body : A → Py S unit) (s : S) :
  py_for (xs ++ ys) body s = match py_for xs body s with
                             | (s', Return _) => py_for ys body s'
                             | (s', Raise e) => (s', Raise e)
                             end.
Proof.
  revert s. induction xs as [|x xs IH]; intros s; [reflexivity|].
  rewrite <- app_comm_cons, !py_for_cons.
  destruct (body x s) as [s' [[]|e]]; [apply IH | reflexivity].
Qed.

(** ** AverageMeter *)

Section AverageMeterProps.

Import AverageMeter.
Local Open Scope Qc_scope.

(** [update] in closed form: what it leaves behind and how it ends. *)
Lemma update_unfold (val : Qc) (n : Z) (self : t) :
  update val n self =
    if (count self + n =? 0)%Z
    then ({| avg := avg self; sum := sum self + val * Qc_of_Z n;
             count := (count self + n)%Z |}, Raise ZeroDivisionError)
    else ({| avg := (sum self + val * Qc_of_Z n) / Qc_of_Z (count self + n);
             sum := sum self + val * Qc_of_Z n;
             count := (count self + n)%Z |}, Return tt).
Proof.
  unfold update, mbind, py_mbind, py_bind, py_modify, py_get, py_raise.
  cbn [count sum avg].
  destruct (count self + n =? 0)%Z; reflexivity.
Qed.

(** Once the count is positive, non-negative weights keep it so and no
    call fails. *)
Lemma updates_positive (calls : list (Qc * Z)) : ∀ self : t,
  (0 < count self)%Z →
  Forall (λ c, (0 ≤ c.2)%Z) calls →
  ∃ self', updates calls self = (self', Return tt)
    ∧ sum self' = sum self + weighted_sum calls
    ∧ count self' = (count self + total_weight calls)%Z
    ∧ (0 ≤ total_weight calls)%Z
    ∧ (calls = [] → self' = self)
    ∧ (calls ≠ [] → avg self' = sum self' / Qc_of_Z (count self')).
Proof.
  induction calls as [|[v n] calls IH]; intros self Hc Hw.
  - exists self. cbn. rewrite Qcplus_0_r, Z.add_0_r. by repeat split.
  - apply Forall_cons in Hw as [Hn Hw]. cbn in Hn.
    unfold updates in *. rewrite py_for_cons. cbn [fst snd].
    rewrite update_unfold.
    destruct (Z.eqb_spec (count self + n) 0) as [?|_]; [lia|].
    edestruct (IH {| avg := (sum self + v * Qc_of_Z n) / Qc_of_Z (count self + n);
                     sum := sum self + v * Qc_of_Z n;
                     count := (count self + n)%Z |})
      as (self' & Hrun & Hsum & Hcount & Hnn & Hnil & Hcons);
      [cbn; lia | exact Hw |].
    cbn in Hsum, Hcount. exists self'. rewrite Hrun.
    split; [reflexivity|]. split; [|split; [|split; [|split]]].
    + rewrite Hsum. cbn. ring.
    + rewrite Hcount. cbn. lia.
    + cbn. lia.
    + discriminate.
    + intros _. destruct calls as [|c calls'].
      * rewrite (Hnil eq_refl). reflexivity.
      * by apply Hcons.
Qed.

(** A run on a fresh meter whose first weight is positive and whose other
    weights are not negative. *)
Lemma updates_on_reset (calls : list (Qc * Z)) :
  match calls with [] => True | c :: _ => (0 < c.2)%Z end →
  Forall (λ c, (0 ≤ c.2)%Z) calls →
  ∃ self', updates calls reset = (self', Return tt)
    ∧ avg self' = weighted_sum calls / Qc_of_Z (total_weight calls)
    ∧ (calls ≠ [] → (0 < total_weight calls)%Z).
Proof.
  destruct calls as [|[v n] calls]; intros Hfirst Hw.
  - exists reset. split; [done|]. split; [|done].
    cbn. unfold Qcdiv. by rewrite Qcmult_0_l.
  - apply Forall_cons in Hw as [_ Hw]. cbn in Hfirst.
    unfold updates. rewrite py_for_cons. cbn [fst snd].
    rewrite update_unfold. cbn [sum count avg reset].
    destruct (Z.eqb_spec (0 + n) 0) as [?|_]; [lia|].
    edestruct (updates_positive calls
                 {| avg := (0 + v * Qc_of_Z n) / Qc_of_Z (0 + n);
                    sum := 0 + v * Qc_of_Z n; count := (0 + n)%Z |})
      as (self' & Hrun & Hsum & Hcount & Hnn & Hnil & Hcons);
      [cbn; lia | exact Hw |].
    unfold updates in Hrun. exists self'. rewrite Hrun.
    split; [done|]. cbn in Hsum, Hcount. split; [|cbn; lia].
    assert (Havg : avg self' = sum self' / Qc_of_Z (count self')).
    { destruct calls as [|c calls']; [by rewrite (Hnil eq_refl)|by apply Hcons]. }
    rewrite Havg, Hsum, Hcount. cbn.
    by rewrite Qcplus_0_l, Z.add_0_l.
Qed.

(** C7. After any finite sequence of [update(value, weight)] calls with
    every weight at least 1 on a freshly reset meter, no call has failed
    and [avg] is the sum of value * weight over the sequence divided by
    the sum of the weights.  For a non-empty sequence that divisor is
    positive; for the empty one both sides are 0. *)
Theorem avg_is_weighted_mean (calls : list (Qc * Z)) :
  Forall (λ c, (1 ≤ c.2)%Z) calls →
  ∃ self', updates calls reset = (self', Return tt)
    ∧ avg self' = weighted_sum calls / Qc_of_Z (total_weight calls)
    ∧ (calls ≠ [] → (0 < total_weight calls)%Z).
Proof.
  intros Hw. apply updates_on_reset.
  - destruct Hw as [|c calls Hc _]; [done|lia].
  - eapply Forall_impl; [exact Hw|]. cbn. intros c Hc. lia.
Qed.

Lemma avg_is_weighted_mean_witness :
  ∃ self', updates [(Q2Qc (1 # 2), 2%Z); (1%Qc, 6%Z)] reset = (self', Return tt)
    ∧ avg self' = weighted_sum [(Q2Qc (1 # 2), 2%Z); (1%Qc, 6%Z)]
                  / Qc_of_Z (total_weight [(Q2Qc (1 # 2), 2%Z); (1%Qc, 6%Z)])
    ∧ ([(Q2Qc (1 # 2), 2%Z); (1%Qc, 6%Z)] ≠ []
       → (0 < total_weight [(Q2Qc (1 # 2), 2%Z); (1%Qc, 6%Z)])%Z).
Proof.
  apply (avg_is_weighted_mean [(Q2Qc (1 # 2), 2%Z); (1%Qc, 6%Z)]).
  repeat constructor; simpl; lia.
Defined.

(** C8, as the code has it.  Whatever the state of the meter, a call
    [update(value, weight)] whose new count [count + weight] is not zero
    returns normally, having increased [sum] by value * weight and
    [count] by weight and set [avg] to the new sum over the new count. *)
Theorem update_effect (self : t) (val : Qc) (n : Z) :
  (count self + n ≠ 0)%Z →
  let r := update val n self in
  r.2 = Return tt
  ∧ sum r.1 = sum self + val * Qc_of_Z n
  ∧ count r.1 = (count self + n)%Z
  ∧ avg r.1 = sum r.1 / Qc_of_Z (count r.1).
Proof.
  intros Hne. cbv zeta. rewrite update_unfold.
  destruct (Z.eqb_spec (count self + n) 0) as [?|_]; [done|].
  by repeat split.
Qed.

Lemma update_effect_witness :
  let r := update 1%Qc 3%Z reset in
  r.2 = Return tt
  ∧ sum r.1 = sum reset + 1 * Qc_of_Z 3%Z
  ∧ count r.1 = (count reset + 3)%Z
  ∧ avg r.1 = sum r.1 / Qc_of_Z (count r.1).
Proof. apply (update_effect reset 1%Qc 3%Z). simpl. lia. Defined.

(** C8 fails as stated: the weight 0 is a valid input, and on a meter
    whose count is 0 the call [update(1, 0)] raises [ZeroDivisionError]
    instead of leaving the average at 0 without failing. *)
Lemma update_zero_weight_fails :
  (0 ≤ 0)%Z ∧ count reset = 0%Z
  ∧ (update 1%Qc 0%Z reset).2 = Raise ZeroDivisionError.
Proof. split; [lia|]. split; reflexivity. Qed.

End AverageMeterProps.

(** ** FilesLimitControl *)

Section FilesLimitControlProps.

Implicit Types (self : FilesLimitControl) (w : World) (p : string).

(** One call in closed form. *)
Lemma call_unfold p self w :
  FilesLimitControl_call p (self, w) =
    let l := saved_weights_paths self ++ [p] in
    if Z.of_nat (length l) >? max_weights_to_save self then
      match l with
      | [] => ((with_paths (λ _, l) self, w), Raise IndexError)
      | old :: rest =>
          match disk w !! old with
          | Some (RegularFile _) =>
              ((with_paths (λ _, rest) self,
                set_log (λ lg, lg ++ [removed_record (logger self) old])
                        (set_disk (delete old) w)), Return tt)
          | Some Directory =>
              ((with_paths (λ _, rest) self, w), Raise IsADirectoryError)
          | None => ((with_paths (λ _, rest) self, w), Return tt)
          end
      end
    else ((with_paths (λ _, l) self, w), Return tt).
Proof.
  destruct self as [l m lg].
  unfold FilesLimitControl_call, mbind, py_mbind, py_bind, on_self, on_world,
    pop0, os_path_exists, os_remove, logger_info, py_modify, mret, py_mret,
    py_ret, with_paths.
  cbn beta iota zeta delta
    [fst snd saved_weights_paths max_weights_to_save logger].
  destruct (Z.of_nat (length (l ++ [p])) >? m); [|reflexivity].
  destruct (l ++ [p]) as [|old rest]; [reflexivity|].
  cbn beta iota zeta delta
    [fst snd saved_weights_paths max_weights_to_save logger].
  destruct (disk w !! old) as [[c|]|] eqn:Hd.
  - rewrite bool_decide_eq_true_2 by eauto.
    cbn beta iota zeta delta [fst snd]. rewrite Hd. reflexivity.
  - rewrite bool_decide_eq_true_2 by eauto.
    cbn beta iota zeta delta [fst snd]. rewrite Hd. reflexivity.
  - rewrite bool_decide_eq_false_2 by (by intros [? ?]). reflexivity.
Qed.

(** A call that does not exceed the limit only appends the path. *)
Lemma call_without_eviction p self w :
  Z.of_nat (length (saved_weights_paths self ++ [p])) ≤ max_weights_to_save self →
  FilesLimitControl_call p (self, w)
  = ((with_paths (λ l, l ++ [p]) self, w), Return tt).
Proof.
  intros Hle. rewrite call_unfold. cbv zeta.
  by destruct (Z.gtb_spec (Z.of_nat (length (saved_weights_paths self ++ [p])))
                 (max_weights_to_save self)) as [?|_]; [lia|].
Qed.

(** *** Kept and dropped paths, one registration further *)

Lemma retained_snoc_small (n : nat) (done : list string) p :
  (length done < n)%nat →
  retained n done = done
  ∧ retained n (done ++ [p]) = done ++ [p]
  ∧ evicted n done = []
  ∧ evicted n (done ++ [p]) = [].
Proof.
  intros Hlt. unfold retained, evicted. rewrite length_app. cbn [length].
  replace (length done - n)%nat with 0%nat by lia.
  replace (length done + 1 - n)%nat with 0%nat by lia.
  by rewrite !drop_0, !take_0.
Qed.

Lemma retained_snoc_full (n : nat) (done : list string) p :
  (n ≤ length done)%nat →
  ∃ old, retained n done ++ [p] = old :: retained n (done ++ [p])
       ∧ evicted n (done ++ [p]) = evicted n done ++ [old]
       ∧ old ∈ done ++ [p].
Proof.
  intros Hle. unfold retained, evicted. rewrite length_app. cbn [length].
  replace (length done + 1 - n)%nat with (S (length done - n)) by lia.
  set (k := (length done - n)%nat).
  destruct (lookup_lt_is_Some_2 (done ++ [p]) k) as [old Hold].
  { rewrite length_app. cbn. lia. }
  exists old. split; [|split].
  - rewrite <- drop_app_le by lia. by apply drop_S.
  - rewrite (take_S_r _ _ _ Hold). by rewrite take_app_le by lia.
  - by eapply list_elem_of_lookup_2.
Qed.

Lemma evicted_snoc_subseteq (n : nat) (done : list string) p q :
  q ∈ evicted n done → q ∈ evicted n (done ++ [p]).
Proof.
  unfold evicted. rewrite !elem_of_take. intros (i & Hi & Hlt).
  exists i. split; [by apply lookup_app_l_Some|].
  rewrite length_app. cbn. lia.
Qed.

Lemma evicted_retained (n : nat) (paths : list string) :
  evicted n paths ++ retained n paths = paths.
Proof. apply take_drop. Qed.

(** *** Removing files *)

Lemma remove_all_delete (ev : list string) p (d : gmap string Node) :
  delete p (remove_all ev d) = remove_all ev (delete p d).
Proof.
  unfold remove_all. induction ev as [|q ev IH]; [reflexivity|]. cbn.
  by rewrite delete_delete, IH.
Qed.

Lemma remove_all_snoc (ev : list string) p (d : gmap string Node) :
  remove_all (ev ++ [p]) d = delete p (remove_all ev d).
Proof.
  rewrite remove_all_delete. unfold remove_all. by rewrite foldr_app.
Qed.

Lemma lookup_remove_all (ev : list string) (d : gmap string Node) q :
  remove_all ev d !! q = if decide (q ∈ ev) then None else d !! q.
Proof.
  induction ev as [|p ev IH]; cbn.
  - by rewrite decide_False by apply not_elem_of_nil.
  - destruct (decide (p = q)) as [->|Hne].
    + rewrite lookup_delete_eq. by rewrite decide_True by apply list_elem_of_here.
    + rewrite lookup_delete_ne by done. fold (remove_all ev d). rewrite IH.
      destruct (decide (q ∈ ev)).
      * by rewrite decide_True by by apply list_elem_of_further.
      * rewrite decide_False; [done|].
        intros [?|?]%elem_of_cons; congruence.
Qed.

Lemma after_evictions_nil lg w : after_evictions lg [] w = w.
Proof.
  destruct w. unfold after_evictions, set_log, set_disk. cbn.
  by rewrite app_nil_r.
Qed.

Lemma after_evictions_snoc_file lg ev old w c :
  disk w !! old = Some (RegularFile c) →
  after_evictions lg (ev ++ [old]) w =
    set_log (λ l, l ++ [removed_record lg old])
            (set_disk (delete old) (after_evictions lg ev w)).
Proof.
  intros Hd. unfold after_evictions, set_log, set_disk. cbn.
  rewrite remove_all_snoc, filter_app, fmap_app, app_assoc.
  rewrite (filter_cons_True _ old) by (by rewrite Hd). done.
Qed.

Lemma after_evictions_snoc_absent lg ev old w :
  disk w !! old = None →
  after_evictions lg (ev ++ [old]) w = after_evictions lg ev w.
Proof.
  intros Hd. unfold after_evictions, set_log, set_disk. cbn.
  rewrite remove_all_snoc, filter_app.
  rewrite (filter_cons_False _ old) by (rewrite Hd; by intros [? ?]).
  rewrite filter_nil, app_nil_r.
  rewrite delete_id; [done|].
  rewrite lookup_remove_all. by destruct (decide (old ∈ ev)).
Qed.

(** *** A run of registrations on a fresh object *)

Lemma register_all_fresh (paths : list string) self w :
  saved_weights_paths self = [] →
  NoDup paths →
  (∀ p, p ∈ evicted (Z.to_nat (max_weights_to_save self)) paths →
        disk w !! p ≠ Some Directory) →
  register_all paths (self, w) =
    ((with_paths (λ _, retained (Z.to_nat (max_weights_to_save self)) paths) self,
      after_evictions (logger self)
        (evicted (Z.to_nat (max_weights_to_save self)) paths) w),
     Return tt).
Proof.
  intros Hfresh. set (n := Z.to_nat (max_weights_to_save self)).
  induction paths as [|p done IH] using rev_ind; intros Hnd Hfiles.
  - unfold register_all, evicted, retained. cbn.
    rewrite after_evictions_nil. destruct self; cbn in *. by subst.
  - apply NoDup_app in Hnd as (Hnd & Hp & _).
    unfold register_all in *. rewrite py_for_app, IH; clear IH;
      [|done|intros q Hq; by apply Hfiles, evicted_snoc_subseteq].
    rewrite py_for_cons, call_unfold. cbv zeta.
    cbn [with_paths saved_weights_paths max_weights_to_save logger].
    destruct (decide (length done < n)%nat) as [Hlt|Hge].
    + destruct (retained_snoc_small n done p Hlt) as (-> & -> & -> & ->).
      rewrite after_evictions_nil.
      destruct (Z.gtb_spec (Z.of_nat (length (done ++ [p])))
                  (max_weights_to_save self)) as [Hgt|_].
      { rewrite length_app in Hgt. cbn in Hgt. lia. }
      reflexivity.
    + destruct (retained_snoc_full n done p) as (old & Hsplit & Hev & _);
        [lia|].
      assert (Hin : old ∈ evicted n (done ++ [p])).
      { rewrite Hev, elem_of_app. right. apply list_elem_of_here. }
      assert (Hlen : length (retained n done) = n).
      { unfold retained. rewrite length_drop. lia. }
      destruct (Z.gtb_spec (Z.of_nat (length (retained n done ++ [p])))
                  (max_weights_to_save self)) as [_|Hle].
      2:{ rewrite length_app, Hlen in Hle. cbn in Hle. lia. }
      rewrite Hsplit, Hev.
      assert (Hnew : old ∉ evicted n done).
      { intros Hold.
        assert (Hnd' : NoDup (evicted n (done ++ [p]))).
        { unfold evicted. refine (sublist_NoDup _ _ _ (sublist_take _ _)).
          apply NoDup_app. repeat split; [done|done|apply NoDup_singleton]. }
        rewrite Hev in Hnd'. apply NoDup_app in Hnd' as (_ & Hdisj & _).
        apply (Hdisj old Hold), list_elem_of_here. }
      assert (Hdisk : disk (after_evictions (logger self) (evicted n done) w)
                        !! old = disk w !! old).
      { unfold after_evictions. cbn. rewrite lookup_remove_all.
        by rewrite decide_False. }
      rewrite Hdisk.
      destruct (disk w !! old) as [[c|]|] eqn:Hd.
      * by erewrite after_evictions_snoc_file.
      * by destruct (Hfiles old Hin).
      * by rewrite after_evictions_snoc_absent.
Qed.

(** C2. On a fresh object with capacity N ≥ 1, registering M > N distinct
    paths completes without error, provided none of the M - N earliest
    ones names a directory; those M - N paths are the ones dropped, those
    of them that were files on the disk are deleted (each with its log
    record, in order), and the retained sequence is the last N paths in
    registration order. *)
Theorem overflow_keeps_most_recent (paths : list string) self w :
  saved_weights_paths self = [] →
  1 ≤ max_weights_to_save self →
  max_weights_to_save self < Z.of_nat (length paths) →
  NoDup paths →
  let N := Z.to_nat (max_weights_to_save self) in
  let k := (length paths - N)%nat in
  (∀ p, p ∈ take k paths → disk w !! p ≠ Some Directory) →
  ∃ self' w',
    register_all paths (self, w) = ((self', w'), Return tt)
    ∧ saved_weights_paths self' = drop k paths
    ∧ length (saved_weights_paths self') = N
    ∧ length (take k paths) = k
    ∧ (∀ q, disk w' !! q = if decide (q ∈ take k paths) then None
                            else disk w !! q)
    ∧ log w' = log w ++ (removed_record (logger self) <$>
                           filter (λ p, is_Some (disk w !! p)) (take k paths)).
Proof.
  intros Hfresh HN HM Hnd N k Hfiles.
  eexists _, _. split; [by apply register_all_fresh|].
  fold N. cbn [with_paths saved_weights_paths]. unfold retained. fold k.
  split; [done|]. split; [rewrite length_drop; lia|].
  split; [rewrite length_take; lia|]. split; [|done].
  intros q. unfold after_evictions. cbn. apply lookup_remove_all.
Qed.

Lemma overflow_keeps_most_recent_witness :
  ∃ self' w',
    register_all ["w1"; "w2"; "w3"] (scenario_control, scenario_world)
      = ((self', w'), Return tt)
    ∧ saved_weights_paths self' = ["w2"; "w3"]
    ∧ disk w' !! "w1" = None
    ∧ log w' = [removed_record module_logger "w1"].
Proof.
  destruct (overflow_keeps_most_recent ["w1"; "w2"; "w3"]
              scenario_control scenario_world)
    as (self' & w' & Hrun & Hkept & _ & _ & Hdisk & Hlog).
  - reflexivity.
  - simpl. lia.
  - simpl. lia.
  - apply (bool_decide_unpack _). vm_compute. exact I.
  - intros p Hp. cbn in Hp.
    repeat (apply elem_of_cons in Hp as [->|Hp]);
      [vm_compute; discriminate ..|by apply elem_of_nil in Hp].
  - exists self', w'. split; [exact Hrun|]. split; [exact Hkept|].
    split; [exact (Hdisk "w1")|exact Hlog].
Defined.

(** *** The bound on the retained sequence *)

Lemma call_keeps_bound p self w :
  Z.of_nat (length (saved_weights_paths self)) ≤ max_weights_to_save self →
  let r := FilesLimitControl_call p (self, w) in
  Z.of_nat (length (saved_weights_paths r.1.1)) ≤ max_weights_to_save r.1.1
  ∧ max_weights_to_save r.1.1 = max_weights_to_save self.
Proof.
  intros Hb. cbv zeta. rewrite call_unfold. cbv zeta.
  destruct (Z.gtb_spec (Z.of_nat (length (saved_weights_paths self ++ [p])))
              (max_weights_to_save self)) as [Hgt|Hle]; [|by split].
  destruct (saved_weights_paths self ++ [p]) as [|old rest] eqn:Hl.
  { by destruct (saved_weights_paths self). }
  assert (length rest = length (saved_weights_paths self)) as Hlen.
  { apply (f_equal length) in Hl. rewrite length_app in Hl. cbn in Hl. lia. }
  destruct (disk w !! old) as [[c|]|]; cbn; (split; [lia|done]).
Qed.

Lemma register_all_keeps_bound (paths : list string) : ∀ self w,
  Z.of_nat (length (saved_weights_paths self)) ≤ max_weights_to_save self →
  let r := register_all paths (self, w) in
  Z.of_nat (length (saved_weights_paths r.1.1)) ≤ max_weights_to_save r.1.1
  ∧ max_weights_to_save r.1.1 = max_weights_to_save self.
Proof.
  unfold register_all.
  induction paths as [|p paths IH]; intros self w Hb; [by split|].
  cbv zeta. rewrite py_for_cons.
  pose proof (call_keeps_bound p self w Hb) as Hstep. cbv zeta in Hstep.
  destruct (FilesLimitControl_call p (self, w)) as [[self1 w1] [[]|e]];
    cbn [fst snd] in *; [|done].
  destruct Hstep as [Hb1 Hmax1].
  destruct (IH self1 w1 Hb1) as [Hb2 Hmax2]. split; [done|congruence].
Qed.

(** C3. Whatever paths are registered on a fresh object of capacity at
    least 1, the retained sequence is never longer than the capacity once
    a call is over (be it the last of the run or a call that raised). *)
Theorem length_never_exceeds_capacity (paths : list string) self w :
  saved_weights_paths self = [] →
  1 ≤ max_weights_to_save self →
  let r := register_all paths (self, w) in
  Z.of_nat (length (saved_weights_paths r.1.1)) ≤ max_weights_to_save self.
Proof.
  intros Hfresh HN.
  destruct (register_all_keeps_bound paths self w) as [Hb Hmax].
  { rewrite Hfresh. cbn. lia. }
  cbv zeta. by rewrite <- Hmax.
Qed.

Lemma length_never_exceeds_capacity_witness :
  let r := register_all ["w1"; "w2"; "w3"] (scenario_control, scenario_world) in
  Z.of_nat (length (saved_weights_paths r.1.1))
  ≤ max_weights_to_save scenario_control.
Proof.
  apply (length_never_exceeds_capacity ["w1"; "w2"; "w3"]
           scenario_control scenario_world).
  - reflexivity.
  - simpl. lia.
Defined.

(** C6. A call that evicts drops the oldest path [old] from the
    sequence in every case.  If nothing exists at [old], the call returns
    normally and leaves disk and log as they were.  If [old] is a file,
    the call returns normally, the file is gone and exactly one record
    is appended to the log, at level INFO, whose message names [old].
    At most one path is deleted by the call. *)
Theorem eviction_effects p self w (old : string) (rest : list string) :
  saved_weights_paths self ++ [p] = old :: rest →
  Z.of_nat (length (old :: rest)) > max_weights_to_save self →
  let r := FilesLimitControl_call p (self, w) in
  saved_weights_paths r.1.1 = rest
  ∧ (disk w !! old = None → r.2 = Return tt ∧ r.1.2 = w)
  ∧ (∀ c, disk w !! old = Some (RegularFile c) →
       r.2 = Return tt
       ∧ disk r.1.2 = delete old (disk w)
       ∧ log r.1.2 = log w ++ [{| logger_name := logger self; level := INFO;
                                  message := "Weigths removed '" +:+ old +:+ "'" |}])
  ∧ (disk r.1.2 = disk w ∨ disk r.1.2 = delete old (disk w)).
Proof.
  intros Hl Hgt. cbv zeta. rewrite call_unfold. cbv zeta. rewrite Hl.
  destruct (Z.gtb_spec (Z.of_nat (length (old :: rest)))
              (max_weights_to_save self)) as [_|Hle]; [|lia].
  destruct (disk w !! old) as [[c|]|] eqn:Hd; cbn [fst snd with_paths
    saved_weights_paths set_log set_disk disk log].
  - split; [done|]. split; [done|]. split; [|by right].
    intros c' _. by repeat split.
  - split; [done|]. split; [done|]. split; [done|by left].
  - split; [done|]. split; [done|]. split; [done|by left].
Qed.

Lemma eviction_effects_witness :
  let r := FilesLimitControl_call "w3"
             ({| saved_weights_paths := ["w1"; "w2"];
                 max_weights_to_save := 2;
                 logger := module_logger |}, scenario_world) in
  saved_weights_paths r.1.1 = ["w2"; "w3"]
  ∧ r.2 = Return tt
  ∧ disk r.1.2 = delete "w1" (disk scenario_world)
  ∧ log r.1.2 = [{| logger_name := module_logger; level := INFO;
                    message := "Weigths removed 'w1'" |}].
Proof.
  destruct (eviction_effects "w3"
              {| saved_weights_paths := ["w1"; "w2"];
                 max_weights_to_save := 2;
                 logger := module_logger |}
              scenario_world "w1" ["w2"; "w3"])
    as (Hkept & _ & Hfile & _).
  - reflexivity.
  - simpl. lia.
  - destruct (Hfile None) as (Hret & Hdisk & Hlog); [reflexivity|].
    cbv zeta. split; [exact Hkept|]. split; [exact Hret|].
    split; [exact Hdisk|exact Hlog].
Defined.

(** C10. Constructed without arguments, the object has capacity 2 (the
    docstring of the class says 3): two registrations are both kept, and
    the third one drops the first path, deleting it when it is a file. *)
Theorem default_capacity_is_two (w0 : World) (p1 p2 p3 : string) :
  let w1 := set_handlers (λ hs, hs ++ [StreamHandler]) w0 in
  ∃ self,
    FilesLimitControl_init None None w0 = (w1, Return self)
    ∧ saved_weights_paths self = []
    ∧ max_weights_to_save self = 2
    ∧ register_all [p1; p2] (self, w1)
      = ((with_paths (λ _, [p1; p2]) self, w1), Return tt)
    ∧ saved_weights_paths (register_all [p1; p2; p3] (self, w1)).1.1 = [p2; p3]
    ∧ (disk w0 !! p1 = None →
         register_all [p1; p2; p3] (self, w1)
         = ((with_paths (λ _, [p2; p3]) self, w1), Return tt))
    ∧ (∀ c, disk w0 !! p1 = Some (RegularFile c) →
         register_all [p1; p2; p3] (self, w1)
         = ((with_paths (λ _, [p2; p3]) self,
             set_log (λ l, l ++ [removed_record (logger self) p1])
                     (set_disk (delete p1) w1)), Return tt)).
Proof.
  intros w1.
  exists {| saved_weights_paths := []; max_weights_to_save := 2;
            logger := module_logger |}.
  split; [reflexivity|]. split; [reflexivity|]. split; [reflexivity|].
  cbn [with_paths saved_weights_paths max_weights_to_save logger].
  assert (Htwo : ∀ q,
    py_for [p1; p2] FilesLimitControl_call
      ({| saved_weights_paths := []; max_weights_to_save := 2;
          logger := module_logger |}, w1)
    = (({| saved_weights_paths := [p1; p2]; max_weights_to_save := 2;
           logger := module_logger |}, w1), Return tt)
    ∧ FilesLimitControl_call q
        ({| saved_weights_paths := [p1; p2]; max_weights_to_save := 2;
            logger := module_logger |}, w1)
      = match disk w0 !! p1 with
        | Some (RegularFile _) =>
            (({| saved_weights_paths := [p2; q]; max_weights_to_save := 2;
                 logger := module_logger |},
              set_log (λ l, l ++ [removed_record module_logger p1])
                      (set_disk (delete p1) w1)), Return tt)
        | Some Directory =>
            (({| saved_weights_paths := [p2; q]; max_weights_to_save := 2;
                 logger := module_logger |}, w1), Raise IsADirectoryError)
        | None =>
            (({| saved_weights_paths := [p2; q]; max_weights_to_save := 2;
                 logger := module_logger |}, w1), Return tt)
        end).
  { intros q. split.
    - reflexivity.
    - rewrite call_unfold. reflexivity. }
  unfold register_all.
  split; [apply (Htwo p3)|].
  change [p1; p2; p3] with ([p1; p2] ++ [p3]).
  rewrite py_for_app, (proj1 (Htwo p3)), py_for_cons, (proj2 (Htwo p3)).
  split; [|split].
  - by destruct (disk w0 !! p1) as [[c|]|].
  - by intros ->.
  - by intros c ->.
Qed.

End FilesLimitControlProps.

(** ** load_pretrain_model *)

Section LoaderProps.

Implicit Types (d source target : Dict) (key k : string) (v : Tensor).

(** *** Dict values *)

Lemma dict_get_set_eq d key v : dict_get (dict_set d key v) key = Some v.
Proof.
  induction d as [|[k w] d IH]; cbn.
  - by rewrite decide_True.
  - destruct (decide (k = key)) as [->|Hne]; cbn.
    + by rewrite decide_True.
    + by rewrite decide_False.
Qed.

Lemma dict_get_set_ne d key k v :
  key ≠ k → dict_get (dict_set d key v) k = dict_get d k.
Proof.
  intros Hne. induction d as [|[k' w] d IH]; cbn.
  - by rewrite decide_False.
  - destruct (decide (k' = key)) as [->|Hne']; cbn.
    + by rewrite !decide_False.
    + destruct (decide (k' = k)); [done|apply IH].
Qed.

Lemma dict_keys_set d key v :
  is_Some (dict_get d key) → dict_keys (dict_set d key v) = dict_keys d.
Proof.
  unfold dict_keys. induction d as [|[k w] d IH]; cbn; intros Hk.
  - by destruct Hk.
  - destruct (decide (k = key)) as [->|Hne]; cbn; [done|].
    by rewrite IH.
Qed.

Lemma dict_get_is_Some d key : is_Some (dict_get d key) ↔ key ∈ dict_keys d.
Proof.
  unfold dict_keys. induction d as [|[k w] d IH]; cbn.
  - rewrite elem_of_nil. split; [by intros [? ?]|done].
  - rewrite elem_of_cons. destruct (decide (k = key)) as [->|Hne].
    + split; [by left|eauto].
    + rewrite IH. split; [by right|]. intros [?|?]; [congruence|done].
Qed.

(** *** The loop on values *)

Lemma transfer_idem source key v :
  transfer source key (transfer source key v) = transfer source key v.
Proof.
  unfold transfer. destruct (dict_get source key) as [s|]; [|done].
  destruct (bool_decide (shape v = shape s)) eqn:E; [|by rewrite E].
  by rewrite bool_decide_eq_true_2.
Qed.

Lemma loadable_transfer source key v :
  loadable source key (transfer source key v) = loadable source key v.
Proof.
  unfold loadable, transfer. destruct (dict_get source key) as [s|]; [|done].
  destruct (bool_decide (shape v = shape s)) eqn:E; [|done].
  by rewrite bool_decide_eq_true_2.
Qed.

Lemma transfer_not_loadable source key v :
  loadable source key v = false → transfer source key v = v.
Proof.
  unfold loadable, transfer. destruct (dict_get source key) as [s|]; [|done].
  by intros ->.
Qed.

Lemma merge_entry_get source d key k :
  dict_get (merge_entry source d key) k =
    if decide (key = k) then transfer source k <$> dict_get d k
    else dict_get d k.
Proof.
  unfold merge_entry. destruct (decide (key = k)) as [->|Hne].
  - destruct (dict_get d k) as [v|] eqn:Hd; [|by rewrite Hd].
    destruct (loadable source k v) eqn:Hl.
    + by rewrite dict_get_set_eq.
    + rewrite Hd. cbn. by rewrite transfer_not_loadable.
  - destruct (dict_get d key) as [v|]; [|done].
    destruct (loadable source key v); [|done].
    by rewrite dict_get_set_ne.
Qed.

Lemma merge_entry_keys source d key :
  dict_keys (merge_entry source d key) = dict_keys d.
Proof.
  unfold merge_entry. destruct (dict_get d key) as [v|] eqn:Hd; [|done].
  destruct (loadable source key v); [|done].
  apply dict_keys_set. by rewrite Hd.
Qed.

Lemma merge_entry_skipped source d key k :
  skipped source (merge_entry source d key) k = skipped source d k.
Proof.
  unfold skipped. rewrite merge_entry_get.
  destruct (decide (key = k)) as [->|]; [|done].
  destruct (dict_get d k) as [v|]; [|done]. cbn.
  by rewrite loadable_transfer.
Qed.

Lemma merge_fold_keys source (keys : list string) : ∀ d,
  dict_keys (foldl (merge_entry source) d keys) = dict_keys d.
Proof.
  induction keys as [|key keys IH]; intros d; [done|]. cbn.
  by rewrite IH, merge_entry_keys.
Qed.

Lemma merge_fold_get source (keys : list string) k : ∀ d,
  dict_get (foldl (merge_entry source) d keys) k =
    if decide (k ∈ keys) then transfer source k <$> dict_get d k
    else dict_get d k.
Proof.
  induction keys as [|key keys IH]; intros d; cbn.
  - by rewrite decide_False by apply not_elem_of_nil.
  - rewrite IH, merge_entry_get.
    destruct (decide (key = k)) as [->|Hne].
    + rewrite (decide_True (P := k ∈ k :: keys)) by apply list_elem_of_here.
      destruct (decide (k ∈ keys)); [|done].
      destruct (dict_get d k) as [v|]; [|done]. cbn.
      by rewrite transfer_idem.
    + destruct (decide (k ∈ keys)) as [Hin|Hnin].
      * by rewrite decide_True by by apply list_elem_of_further.
      * rewrite decide_False; [done|].
        intros [?|?]%elem_of_cons; congruence.
Qed.

(** The merged dict has the keys of the target, in the same order, and
    under each of them the value chosen by [transfer]. *)
Lemma merged_keys source target :
  dict_keys (merged source target) = dict_keys target.
Proof. apply merge_fold_keys. Qed.

Lemma merged_get source target k :
  dict_get (merged source target) k = transfer source k <$> dict_get target k.
Proof.
  unfold merged. rewrite merge_fold_get.
  destruct (decide (k ∈ dict_keys target)) as [|Hnin]; [done|].
  destruct (dict_get target k) eqn:Hd; [|done].
  destruct Hnin. apply dict_get_is_Some. by rewrite Hd.
Qed.

(** *** The loop on the heap *)

Lemma merge_step_run (lg : Logger) (o n : nat) key (w : World) source d v :
  heap w !! o = Some source →
  heap w !! n = Some d →
  dict_get d key = Some v →
  merge_step lg o n key w =
    if loadable source key v
    then (set_heap (λ h, <[n := merge_entry source d key]> h) w, Return tt)
    else (set_log (λ l, l ++ [not_loaded_record lg key]) w, Return tt).
Proof.
  intros Ho Hn Hd.
  unfold merge_step, mbind, py_mbind, py_bind, dict_contains, dict_getitem,
    dict_setitem, logger_info, py_modify.
  rewrite Ho. cbn beta iota.
  unfold merge_entry, loadable, transfer. rewrite Hd.
  destruct (dict_get source key) as [s|] eqn:Hs.
  - rewrite bool_decide_eq_true_2 by eauto. cbn beta iota.
    rewrite Hn. cbn [mbind option_bind]. rewrite Hd, Ho.
    cbn [mbind option_bind]. rewrite Hs. cbn beta iota.
    destruct (bool_decide (shape v = shape s)); [rewrite Hn|]; reflexivity.
  - by rewrite bool_decide_eq_false_2 by (by intros [? ?]).
Qed.

Lemma merge_keys_run (lg : Logger) (o n : nat) source (keys : list string) :
  ∀ (w : World) d,
    heap w !! o = Some source →
    heap w !! n = Some d →
    o ≠ n →
    (∀ k, k ∈ keys → is_Some (dict_get d k)) →
    py_for keys (merge_step lg o n) w =
      (set_log (λ l, l ++ (not_loaded_record lg <$>
                             List.filter (skipped source d) keys))
         (set_heap (λ h, <[n := foldl (merge_entry source) d keys]> h) w),
       Return tt).
Proof.
  induction keys as [|key keys IH]; intros w d Ho Hn Hne Hkeys.
  - cbn. unfold set_log, set_heap. destruct w as [h dk lg' hs]. cbn in *.
    by rewrite app_nil_r, list_insert_id.
  - destruct (Hkeys key) as [v Hv]; [apply list_elem_of_here|].
    assert (Hrest : ∀ d', dict_keys d' = dict_keys d →
              ∀ k, k ∈ keys → is_Some (dict_get d' k)).
    { intros d' Hd' k Hk. apply dict_get_is_Some. rewrite Hd'.
      apply dict_get_is_Some, Hkeys. by apply list_elem_of_further. }
    rewrite py_for_cons, (merge_step_run lg o n key w source d v) by done.
    assert (Hsk : skipped source d key = negb (loadable source key v)).
    { unfold skipped. by rewrite Hv. }
    cbn [foldl List.filter]. rewrite Hsk.
    destruct (loadable source key v) eqn:Hl; cbn [negb].
    + rewrite (IH _ (merge_entry source d key)); cycle 1.
      * cbn. by rewrite list_lookup_insert_ne by done.
      * cbn. apply list_lookup_insert_eq. by eapply lookup_lt_Some.
      * done.
      * apply Hrest, merge_entry_keys.
      * f_equal. unfold set_log, set_heap. cbn.
        rewrite list_insert_insert_eq.
        by rewrite (List.filter_ext _ _ (merge_entry_skipped source d key)).
    + assert (Hsame : merge_entry source d key = d).
      { unfold merge_entry. by rewrite Hv, Hl. }
      rewrite Hsame, (IH _ d);
        [|exact Ho|exact Hn|done|by apply Hrest].
      f_equal. unfold set_log, set_heap. cbn.
      by rewrite <- app_assoc.
Qed.

(** *** The whole function *)

Lemma merge_loop_run (lg : Logger) (o n : nat) (w : World) source target :
  heap w !! o = Some source →
  heap w !! n = Some target →
  o ≠ n →
  merge_loop lg o n w =
    (set_log (λ l, l ++ (not_loaded_record lg <$> not_loaded source target))
       (set_heap (λ h, <[n := merged source target]> h) w),
     Return tt).
Proof.
  intros Ho Hn Hne.
  unfold merge_loop, mbind, py_mbind, py_bind, dict_keys_of. rewrite Hn.
  apply merge_keys_run; [done..|].
  intros k Hk. by apply dict_get_is_Some.
Qed.

Lemma load_after_setup (lg : Logger) (path : string) (model : Model)
    (w : World) source :
  disk w !! path = Some (RegularFile (Some source)) →
  (old_dict ← torch_load path;
   new_dict ← state_dict model;
   _ ← merge_loop lg old_dict new_dict;
   mret new_dict) w =
    (set_log (λ l, l ++ (not_loaded_record lg <$>
                           not_loaded source (parameters model)))
       (set_heap (λ h, h ++ [source; merged source (parameters model)]) w),
     Return (S (length (heap w)))).
Proof.
  intros Hfile.
  unfold mbind, py_mbind, py_bind, torch_load, state_dict, dict_alloc.
  rewrite Hfile. cbn [heap set_heap].
  rewrite (merge_loop_run lg _ _ _ source (parameters model)).
  - cbn. rewrite length_app. cbn.
    replace (length (heap w) + 1)%nat with (S (length (heap w))) by lia.
    f_equal. unfold set_log, set_heap. cbn. f_equal.
    rewrite <- (assoc_L (++)). cbn.
    replace (S (length (heap w))) with (length (heap w) + 1)%nat by lia.
    by rewrite insert_app_r.
  - cbn. rewrite <- (assoc_L (++)). by apply list_lookup_middle.
  - cbn. by apply list_lookup_middle.
  - rewrite length_app. cbn. lia.
Qed.

Lemma load_pretrain_model_run (path : string) (model : Model)
    (logger : option Logger) (w : World) source :
  disk w !! path = Some (RegularFile (Some source)) →
  load_pretrain_model path model logger w =
    (set_log (λ l, l ++ (not_loaded_record (chosen_logger logger) <$>
                           not_loaded source (parameters model)))
       (set_heap (λ h, h ++ [source; merged source (parameters model)])
          (after_logging_setup logger w)),
     Return (S (length (heap w)))).
Proof.
  intros Hfile. unfold load_pretrain_model.
  destruct logger as [lg|]; rewrite py_bind_unfold; cbn [after_logging_setup].
  - by apply load_after_setup.
  - change (configure_logging None w)
      with (set_handlers (λ hs, hs ++ [StreamHandler]) w, Return module_logger).
    cbn beta iota.
    by rewrite (load_after_setup module_logger path model _ source).
Qed.

Lemma after_logging_setup_disk (logger : option Logger) (w : World) :
  disk (after_logging_setup logger w) = disk w.
Proof. by destruct logger. Qed.

Lemma load_pretrain_model_fails (path : string) (model : Model)
    (logger : option Logger) (w : World) (e : Exn) :
  torch_load path (after_logging_setup logger w)
    = (after_logging_setup logger w, Raise e) →
  load_pretrain_model path model logger w
    = (after_logging_setup logger w, Raise e).
Proof.
  intros Hload.
  unfold load_pretrain_model, configure_logging, mbind, py_mbind, py_bind,
    py_modify, mret, py_mret, py_ret.
  destruct logger as [lg|]; cbn [after_logging_setup] in Hload;
    cbv beta iota; by rewrite Hload.
Qed.

Lemma lookup_second_fresh {A} (h : list A) (a b : A) :
  (h ++ [a; b]) !! S (length h) = Some b.
Proof.
  rewrite lookup_app_r by lia.
  by replace (S (length h) - length h)%nat with 1%nat by lia.
Qed.

(** The keys reported are the keys of the target that are missing from
    the source or have another shape there. *)
Lemma not_loaded_spec source target k :
  k ∈ not_loaded source target ↔
    ∃ v, dict_get target k = Some v
         ∧ (dict_get source k = None
            ∨ ∃ s, dict_get source k = Some s ∧ shape v ≠ shape s).
Proof.
  unfold not_loaded. rewrite list_elem_of_In, List.filter_In, <- list_elem_of_In.
  rewrite <- dict_get_is_Some. unfold skipped, loadable. split.
  - intros [[v Hv] Hsk]. exists v. split; [done|]. rewrite Hv in Hsk.
    destruct (dict_get source k) as [s|]; [|by left].
    right. exists s. split; [done|].
    apply negb_true_iff in Hsk. by apply bool_decide_eq_false in Hsk.
  - intros (v & Hv & Hcase). split; [eauto|]. rewrite Hv.
    destruct Hcase as [->|(s & -> & Hne)]; [done|].
    by rewrite bool_decide_eq_false_2.
Qed.

Example scenario_merged :
  merged scenario_checkpoint (parameters scenario_model)
  = [("a", ones [3; 3]); ("b", zeros [2; 2])]%nat
  ∧ not_loaded scenario_checkpoint (parameters scenario_model) = ["b"].
Proof. split; reflexivity. Qed.

(** C1. When the checkpoint file holds the mapping [source], the mapping
    returned for a model with parameters [target] has the keys of the
    target (in the same order); under each of them it has the source
    value when the source has the key with a tensor of the same shape,
    and the target value otherwise.  Keys that only the source has are
    not in the result. *)
Theorem loaded_mapping (path : string) (model : Model)
    (logger : option Logger) (w : World) source :
  disk w !! path = Some (RegularFile (Some source)) →
  ∃ w' new_dict result,
    load_pretrain_model path model logger w = (w', Return new_dict)
    ∧ heap w' !! new_dict = Some result
    ∧ dict_keys result = dict_keys (parameters model)
    ∧ (∀ k v, dict_get (parameters model) k = Some v →
         dict_get result k
         = Some (match dict_get source k with
                 | Some s => if bool_decide (shape v = shape s) then s else v
                 | None => v
                 end))
    ∧ (∀ k, dict_get (parameters model) k = None → dict_get result k = None).
Proof.
  intros Hfile. eexists _, _, (merged source (parameters model)).
  split; [by apply load_pretrain_model_run|].
  split; [|split; [apply merged_keys|split]].
  - cbn. destruct logger; apply lookup_second_fresh.
  - intros k v Hk. by rewrite merged_get, Hk.
  - intros k Hk. by rewrite merged_get, Hk.
Qed.

Lemma loaded_mapping_witness :
  ∃ w' new_dict result,
    load_pretrain_model "ckpt.pth" scenario_model None checkpoint_world
      = (w', Return new_dict)
    ∧ heap w' !! new_dict = Some result
    ∧ dict_keys result = dict_keys (parameters scenario_model)
    ∧ (∀ k v, dict_get (parameters scenario_model) k = Some v →
         dict_get result k
         = Some (match dict_get scenario_checkpoint k with
                 | Some s => if bool_decide (shape v = shape s) then s else v
                 | None => v
                 end))
    ∧ (∀ k, dict_get (parameters scenario_model) k = None
            → dict_get result k = None).
Proof.
  apply (loaded_mapping "ckpt.pth" scenario_model None checkpoint_world
           scenario_checkpoint).
  reflexivity.
Defined.

(** C4. The call fails exactly when [torch.load] fails, with the
    exception of [torch.load]: nothing at the path, a directory, or a
    file that does not unpickle.  With a readable checkpoint it returns
    the merged mapping whatever keys are missing and whatever shapes
    differ, and has logged one record for each key not loaded. *)
Theorem load_fails_only_on_unreadable_checkpoint (path : string)
    (model : Model) (logger : option Logger) (w : World) :
  match disk w !! path with
  | Some (RegularFile (Some source)) =>
      ∃ w' new_dict,
        load_pretrain_model path model logger w = (w', Return new_dict)
        ∧ heap w' !! new_dict = Some (merged source (parameters model))
        ∧ log w' = log w ++ (not_loaded_record (chosen_logger logger) <$>
                               not_loaded source (parameters model))
  | Some (RegularFile None) =>
      load_pretrain_model path model logger w
      = (after_logging_setup logger w, Raise UnpicklingError)
  | Some Directory =>
      load_pretrain_model path model logger w
      = (after_logging_setup logger w, Raise IsADirectoryError)
  | None =>
      load_pretrain_model path model logger w
      = (after_logging_setup logger w, Raise FileNotFoundError)
  end.
Proof.
  destruct (disk w !! path) as [[[source|]|]|] eqn:Hfile.
  - eexists _, _. split; [by apply load_pretrain_model_run|].
    split; [|by destruct logger].
    cbn. destruct logger; apply lookup_second_fresh.
  - apply load_pretrain_model_fails. unfold torch_load.
    by rewrite after_logging_setup_disk, Hfile.
  - apply load_pretrain_model_fails. unfold torch_load.
    by rewrite after_logging_setup_disk, Hfile.
  - apply load_pretrain_model_fails. unfold torch_load.
    by rewrite after_logging_setup_disk, Hfile.
Qed.

(** C5 fails as stated: the merge writes into the target mapping.  With
    the source at address 0 and the target at address 1, the dict at
    address 1 holds another value for "a" after the loop. *)
Lemma merge_mutates_target :
  let w := {| heap := [scenario_checkpoint; parameters scenario_model];
              disk := ∅; log := []; handlers := [] |} in
  let r := merge_loop module_logger 0 1 w in
  r.2 = Return tt
  ∧ (heap w !! 1%nat ≫= λ d, dict_get d "a") = Some (zeros [3; 3]%nat)
  ∧ (heap r.1 !! 1%nat ≫= λ d, dict_get d "a") = Some (ones [3; 3]%nat)
  ∧ heap r.1 !! 1%nat ≠ heap w !! 1%nat.
Proof.
  cbv zeta. split; [reflexivity|]. split; [reflexivity|].
  split; [reflexivity|].
  intros Heq. apply (f_equal (λ o, o ≫= λ d, data <$> dict_get d "a")) in Heq.
  vm_compute in Heq. discriminate Heq.
Qed.

(** C5, as the code has it.  The call leaves the disk, every dict object
    that existed before and the dict loaded from the checkpoint as they
    were.  The dict obtained from [state_dict()], allocated right after
    the loaded one, is the only object written to: it is updated in
    place and it is the object returned. *)
Theorem load_writes_only_fresh_target (path : string) (model : Model)
    (logger : option Logger) (w : World) source :
  disk w !! path = Some (RegularFile (Some source)) →
  ∃ w',
    load_pretrain_model path model logger w
      = (w', Return (S (length (heap w))))
    ∧ heap w' = heap w ++ [source; merged source (parameters model)]
    ∧ (∀ r d, heap w !! r = Some d → heap w' !! r = Some d)
    ∧ heap w' !! length (heap w) = Some source
    ∧ disk w' = disk w.
Proof.
  intros Hfile. eexists. split; [by apply load_pretrain_model_run|].
  assert (Hheap : ∀ w0, heap (after_logging_setup logger w0) = heap w0)
    by (by destruct logger).
  assert (Hdisk : ∀ w0, disk (after_logging_setup logger w0) = disk w0)
    by (by destruct logger).
  cbn. rewrite Hheap, Hdisk. split; [done|]. split; [|split; [|done]].
  - intros r d Hr. by apply lookup_app_l_Some.
  - by apply list_lookup_middle.
Qed.

Lemma load_writes_only_fresh_target_witness :
  ∃ w',
    load_pretrain_model "ckpt.pth" scenario_model None checkpoint_world
      = (w', Return (S (length (heap checkpoint_world))))
    ∧ heap w' = heap checkpoint_world
                ++ [scenario_checkpoint;
                    merged scenario_checkpoint (parameters scenario_model)]
    ∧ (∀ r d, heap checkpoint_world !! r = Some d → heap w' !! r = Some d)
    ∧ heap w' !! length (heap checkpoint_world) = Some scenario_checkpoint
    ∧ disk w' = disk checkpoint_world.
Proof.
  apply (load_writes_only_fresh_target "ckpt.pth" scenario_model None
           checkpoint_world scenario_checkpoint).
  reflexivity.
Defined.

End LoaderProps.

(** ** val_loop *)

Section ValLoopProps.

Context {Images Aux1 Aux2 Net Decoder Device : Type}.
Variable predict : Images → Net → Decoder → Device → list string.
Variables get_accuracy wer cer : list string → list string → Qc.
Variable format_4f : Qc → string.

Implicit Types (data_loader : list (@Batch Images Aux1 Aux2))
  (model : Net) (decoder : Decoder) (device : Device)
  (metric : list string → list string → Qc).

Lemma scored_weights metric model decoder device data_loader :
  Forall (λ c, 0 ≤ c.2) (scored predict metric model decoder device data_loader).
Proof.
  unfold scored. apply Forall_fmap, Forall_forall.
  intros [[[images texts] ?] ?] _. cbn. lia.
Qed.

Lemma scored_first metric model decoder device data_loader :
  match data_loader with [] => True | batch :: _ => batch_texts batch ≠ [] end →
  match scored predict metric model decoder device data_loader with
  | [] => True
  | c :: _ => 0 < c.2
  end.
Proof.
  destruct data_loader as [|[[[images texts] ?] ?] rest]; [done|].
  cbn. destruct texts; [done|]. cbn. lia.
Qed.

(** The loop over the batches runs the three meters side by side. *)
Lemma val_steps_split model decoder device data_loader : ∀ ms a b c,
  AverageMeter.updates (scored predict get_accuracy model decoder device data_loader)
    (acc_avg ms) = (a, Return tt) →
  AverageMeter.updates (scored predict wer model decoder device data_loader)
    (wer_avg ms) = (b, Return tt) →
  AverageMeter.updates (scored predict cer model decoder device data_loader)
    (cer_avg ms) = (c, Return tt) →
  py_for data_loader (val_step predict get_accuracy wer cer model decoder device) ms
  = ({| acc_avg := a; wer_avg := b; cer_avg := c |}, Return tt).
Proof.
  unfold AverageMeter.updates.
  induction data_loader as [|[[[images texts] x1] x2] rest IH];
    intros ms a b c Ha Hb Hc.
  - cbn [scored map] in Ha, Hb, Hc.
    rewrite py_for_nil in Ha. rewrite py_for_nil in Hb.
    rewrite py_for_nil in Hc. rewrite py_for_nil.
    destruct ms. cbn in *. congruence.
  - cbn [scored map] in Ha, Hb, Hc. fold (scored predict get_accuracy model decoder device rest) in Ha.
    fold (scored predict wer model decoder device rest) in Hb.
    fold (scored predict cer model decoder device rest) in Hc.
    rewrite py_for_cons in Ha. rewrite py_for_cons in Hb.
    rewrite py_for_cons in Hc. rewrite py_for_cons.
    cbn [fst snd] in Ha, Hb, Hc.
    unfold val_step, mbind, py_mbind, py_bind, on_acc, on_wer, on_cer.
    cbn [acc_avg wer_avg cer_avg].
    destruct (AverageMeter.update _ _ (acc_avg ms)) as [a1 [[]|?]]; [|done].
    cbn [acc_avg wer_avg cer_avg].
    destruct (AverageMeter.update _ _ (wer_avg ms)) as [b1 [[]|?]]; [|done].
    cbn [acc_avg wer_avg cer_avg].
    destruct (AverageMeter.update _ _ (cer_avg ms)) as [c1 [[]|?]]; [|done].
    by apply IH.
Qed.

(** C9, as the code has it.  When the sequence of batches is empty or
    its first batch has at least one text, [val_loop] returns the average
    of the accuracy over the batches, each weighted by the length of its
    text list, and appends one INFO record to the log: the line with the
    weighted averages of accuracy, WER and CER and the elapsed time as
    rendered by [sec2min].  (For the empty sequence the three averages
    are 0.) *)
Theorem val_loop_weighted_averages data_loader model decoder
    (logger : Logger) device (strat_time end_time : Qc) (w : World) :
  match data_loader with [] => True | batch :: _ => batch_texts batch ≠ [] end →
  let mean metric :=
    weighted_average (scored predict metric model decoder device data_loader) in
  val_loop predict get_accuracy wer cer format_4f data_loader model decoder
    logger device strat_time end_time w
  = (set_log (λ l, l ++ [{| logger_name := logger; level := INFO;
                            message := validation_msg format_4f
                                         (mean get_accuracy) (mean wer) (mean cer)
                                         (sec2min (end_time - strat_time)%Qc) |}]) w,
     Return (mean get_accuracy)).
Proof.
  intros Hfirst mean.
  destruct (updates_on_reset
              (scored predict get_accuracy model decoder device data_loader))
    as (a & Ha & Havg_a & _); [by apply scored_first|apply scored_weights|].
  destruct (updates_on_reset
              (scored predict wer model decoder device data_loader))
    as (b & Hb & Havg_b & _); [by apply scored_first|apply scored_weights|].
  destruct (updates_on_reset
              (scored predict cer model decoder device data_loader))
    as (c & Hc & Havg_c & _); [by apply scored_first|apply scored_weights|].
  unfold val_loop.
  rewrite (val_steps_split model decoder device data_loader
             {| acc_avg := AverageMeter.init; wer_avg := AverageMeter.init;
                cer_avg := AverageMeter.init |} a b c Ha Hb Hc).
  cbn [acc_avg wer_avg cer_avg]. rewrite Havg_a, Havg_b, Havg_c.
  reflexivity.
Qed.


End ValLoopProps.

Lemma val_loop_weighted_averages_witness :
  let data_loader := [((), ["cat"; "dog"], (), ()); ((), ["bird"], (), ())] in
  let mean metric :=
    weighted_average (scored sample_predict metric () () () data_loader) in
  val_loop sample_predict sample_accuracy sample_error sample_error
    sample_format data_loader () () module_logger () 0%Qc 1%Qc checkpoint_world
  = (set_log (λ l, l ++ [{| logger_name := module_logger; level := INFO;
                            message := validation_msg sample_format
                                         (mean sample_accuracy)
                                         (mean sample_error) (mean sample_error)
                                         (sec2min (1 - 0)%Qc) |}])
       checkpoint_world,
     Return (mean sample_accuracy)).
Proof.
  apply (val_loop_weighted_averages sample_predict sample_accuracy
           sample_error sample_error sample_format
           [((), ["cat"; "dog"], (), ()); ((), ["bird"], (), ())]
           () () module_logger () 0%Qc 1%Qc checkpoint_world).
  simpl. discriminate.
Defined.

(** C9 fails as stated: a data loader whose first batch has an empty text
    list is a sequence of batches, and on it the first [update] divides by
    a zero count; [val_loop] raises, logs nothing and returns no average. *)
Lemma val_loop_empty_first_batch_fails :
  val_loop sample_predict sample_accuracy sample_error sample_error
    sample_format [((), [], (), ())] () () module_logger () 0%Qc 1%Qc
    checkpoint_world
  = (checkpoint_world, Raise ZeroDivisionError).
Proof. reflexivity. Qed.


(** * Further properties *)

(** ** AverageMeter: order of the calls, bounds *)

Section AverageMeterMore.

Import AverageMeter.
Local Open Scope Qc_scope.

(** The two sums do not depend on the order of the calls. *)
Lemma weighted_sum_perm (calls calls' : list (Qc * Z)) :
  calls ≡ₚ calls' → weighted_sum calls = weighted_sum calls'.
Proof.
  induction 1 as [|[v n] ?? _ IH|[v n] [v' n'] ?|??? _ IH1 _ IH2]; cbn.
  - done.
  - by rewrite IH.
  - ring.
  - by rewrite IH1.
Qed.

Lemma total_weight_perm (calls calls' : list (Qc * Z)) :
  calls ≡ₚ calls' → total_weight calls = total_weight calls'.
Proof.
  induction 1 as [|[v n] ?? _ IH|[v n] [v' n'] ?|??? _ IH1 _ IH2]; cbn.
  - done.
  - by rewrite IH.
  - lia.
  - by rewrite IH1.
Qed.






End AverageMeterMore.

(** ** sec2min *)

Section Sec2minProps.







End Sec2minProps.

Example sec2min_sample : sec2min (Q2Qc (251 # 2)) = "2m 5s".
Proof. reflexivity. Qed.

(** ** FilesLimitControl: degenerate capacity, repeated paths *)

Section FilesLimitControlMore.

Implicit Types (self : FilesLimitControl) (w : World) (p : string).

(** X4. With a capacity of zero or less, a registration on a fresh object
    evicts the very path it registers: the sequence stays empty, and a
    file at that path is deleted (and logged) at once. *)
Theorem nonpositive_capacity_drops_new_path p self w :
  saved_weights_paths self = [] →
  max_weights_to_save self ≤ 0 →
  let r := FilesLimitControl_call p (self, w) in
  saved_weights_paths r.1.1 = []
  ∧ (disk w !! p = None → r.2 = Return tt ∧ r.1.2 = w)
  ∧ (∀ c, disk w !! p = Some (RegularFile c) →
       r.2 = Return tt
       ∧ disk r.1.2 = delete p (disk w)
       ∧ log r.1.2 = log w ++ [removed_record (logger self) p]).
Proof.
  intros Hfresh Hcap. cbv zeta. rewrite call_unfold, Hfresh. cbv zeta.
  cbn [app length].
  destruct (Z.gtb_spec (Z.of_nat 1) (max_weights_to_save self)) as [_|?]; [|lia].
  destruct (disk w !! p) as [[c|]|]; cbn; (split; [done|]); (split; [done|]).
  - intros c' _. by repeat split.
  - done.
  - done.
Qed.

Lemma nonpositive_capacity_drops_new_path_witness :
  let self := {| saved_weights_paths := []; max_weights_to_save := 0;
                 logger := module_logger |} in
  let r := FilesLimitControl_call "w1" (self, scenario_world) in
  saved_weights_paths r.1.1 = []
  ∧ (disk scenario_world !! "w1" = None → r.2 = Return tt ∧ r.1.2 = scenario_world)
  ∧ (∀ c, disk scenario_world !! "w1" = Some (RegularFile c) →
       r.2 = Return tt
       ∧ disk r.1.2 = delete "w1" (disk scenario_world)
       ∧ log r.1.2 = log scenario_world ++ [removed_record module_logger "w1"]).
Proof.
  apply (nonpositive_capacity_drops_new_path "w1"
           {| saved_weights_paths := []; max_weights_to_save := 0;
              logger := module_logger |} scenario_world).
  - reflexivity.
  - simpl. lia.
Defined.

(** X5. When the path evicted by a call is registered again further on in
    the sequence, the call deletes its file all the same: afterwards the
    retained sequence names a file that is no longer on the disk. *)
Theorem evicting_repeated_path_loses_file p self w (old : string)
    (rest : list string) (c : option Dict) :
  saved_weights_paths self ++ [p] = old :: rest →
  Z.of_nat (length (old :: rest)) > max_weights_to_save self →
  old ∈ rest →
  disk w !! old = Some (RegularFile c) →
  let r := FilesLimitControl_call p (self, w) in
  r.2 = Return tt
  ∧ old ∈ saved_weights_paths r.1.1
  ∧ disk r.1.2 !! old = None.
Proof.
  intros Hl Hgt Hin Hd. cbv zeta. rewrite call_unfold. cbv zeta. rewrite Hl.
  destruct (Z.gtb_spec (Z.of_nat (length (old :: rest)))
              (max_weights_to_save self)) as [_|?]; [|lia].
  rewrite Hd. cbn. split; [done|]. split; [done|]. apply lookup_delete_eq.
Qed.

Lemma evicting_repeated_path_loses_file_witness :
  let self := {| saved_weights_paths := ["w1"; "w2"]; max_weights_to_save := 2;
                 logger := module_logger |} in
  let r := FilesLimitControl_call "w1" (self, scenario_world) in
  r.2 = Return tt
  ∧ "w1" ∈ saved_weights_paths r.1.1
  ∧ disk r.1.2 !! "w1" = None.
Proof.
  apply (evicting_repeated_path_loses_file "w1"
           {| saved_weights_paths := ["w1"; "w2"]; max_weights_to_save := 2;
              logger := module_logger |}
           scenario_world "w1" ["w2"; "w1"] None).
  - reflexivity.
  - simpl. lia.
  - apply list_elem_of_further, list_elem_of_here.
  - reflexivity.
Defined.

End FilesLimitControlMore.

(** ** FilesLimitControl: runs with arbitrary paths *)

Section FilesLimitControlRuns.

Implicit Types (self : FilesLimitControl) (w : World) (p : string).

(** A run on a fresh object, the paths possibly repeating. *)
Lemma register_all_any (paths : list string) self w :
  saved_weights_paths self = [] →
  (∀ p, p ∈ evicted (Z.to_nat (max_weights_to_save self)) paths →
        disk w !! p ≠ Some Directory) →
  ∃ w',
    register_all paths (self, w)
    = ((with_paths (λ _, retained (Z.to_nat (max_weights_to_save self)) paths) self,
        w'), Return tt)
    ∧ disk w' = remove_all (evicted (Z.to_nat (max_weights_to_save self)) paths)
                  (disk w).
Proof.
  intros Hfresh. set (n := Z.to_nat (max_weights_to_save self)).
  induction paths as [|p done IH] using rev_ind; intros Hfiles.
  - exists w. split; [|done]. unfold register_all, retained. cbn.
    destruct self; cbn in *. by subst.
  - destruct IH as (w1 & Hrun & Hdisk1).
    { intros q Hq. by apply Hfiles, evicted_snoc_subseteq. }
    unfold register_all in *. rewrite py_for_app, Hrun.
    rewrite py_for_cons, call_unfold. cbv zeta.
    cbn [with_paths saved_weights_paths max_weights_to_save logger].
    destruct (decide (length done < n)%nat) as [Hlt|Hge].
    + destruct (retained_snoc_small n done p Hlt) as (-> & -> & Hev & ->).
      rewrite Hev in Hdisk1.
      destruct (Z.gtb_spec (Z.of_nat (length (done ++ [p])))
                  (max_weights_to_save self)) as [Hgt|_].
      { rewrite length_app in Hgt. cbn in Hgt. lia. }
      by exists w1.
    + destruct (retained_snoc_full n done p) as (old & Hsplit & Hev & _);
        [lia|].
      assert (Hlen : length (retained n done) = n).
      { unfold retained. rewrite length_drop. lia. }
      destruct (Z.gtb_spec (Z.of_nat (length (retained n done ++ [p])))
                  (max_weights_to_save self)) as [_|Hle].
      2:{ rewrite length_app, Hlen in Hle. cbn in Hle. lia. }
      rewrite Hsplit, Hev, remove_all_snoc, <- Hdisk1.
      destruct (disk w1 !! old) as [[c|]|] eqn:Hd.
      * eexists. split; [reflexivity|done].
      * exfalso. apply (Hfiles old).
        { rewrite Hev, elem_of_app. right. apply list_elem_of_here. }
        rewrite Hdisk1, lookup_remove_all in Hd.
        by destruct (decide (old ∈ evicted n done)).
      * exists w1. split; [done|]. by rewrite delete_id.
Qed.

(** X6. Whatever paths are registered on a fresh object, repeated or not,
    as long as no evicted path names a directory the run returns normally,
    the retained sequence is the last N registrations in order (N the
    capacity, taken as 0 when negative), and the disk has lost exactly the
    paths registered before those. *)
Theorem registry_keeps_last_registrations (paths : list string) self w :
  saved_weights_paths self = [] →
  let N := Z.to_nat (max_weights_to_save self) in
  let k := (length paths - N)%nat in
  (∀ p, p ∈ take k paths → disk w !! p ≠ Some Directory) →
  ∃ self' w',
    register_all paths (self, w) = ((self', w'), Return tt)
    ∧ saved_weights_paths self' = drop k paths
    ∧ (∀ q, disk w' !! q = if decide (q ∈ take k paths) then None
                            else disk w !! q).
Proof.
  intros Hfresh N k Hfiles.
  destruct (register_all_any paths self w Hfresh Hfiles) as (w' & Hrun & Hdisk).
  eexists _, w'. split; [exact Hrun|]. split; [done|].
  intros q. rewrite Hdisk. apply lookup_remove_all.
Qed.

Lemma registry_keeps_last_registrations_witness :
  ∃ self' w',
    register_all ["w1"; "w1"; "w1"] (scenario_control, scenario_world)
    = ((self', w'), Return tt)
    ∧ saved_weights_paths self' = drop 1 ["w1"; "w1"; "w1"]
    ∧ (∀ q, disk w' !! q = if decide (q ∈ take 1 ["w1"; "w1"; "w1"]) then None
                            else disk scenario_world !! q).
Proof.
  apply (registry_keeps_last_registrations ["w1"; "w1"; "w1"]
           scenario_control scenario_world).
  - reflexivity.
  - intros p Hp. cbn in Hp.
    repeat (apply elem_of_cons in Hp as [->|Hp]);
      [vm_compute; discriminate ..|by apply elem_of_nil in Hp].
Defined.

End FilesLimitControlRuns.

(** ** load_pretrain_model: shapes, full transfer *)

Section LoaderMore.

Implicit Types (d source target : Dict) (key k : string) (v : Tensor).

Lemma transfer_shape source key v : shape (transfer source key v) = shape v.
Proof.
  unfold transfer. destruct (dict_get source key) as [s|]; [|done].
  destruct (bool_decide (shape v = shape s)) eqn:E; [|done].
  by apply bool_decide_eq_true in E.
Qed.

(** X7. The mapping returned has, under every key of the model, a tensor
    of the shape the model has there, whatever the checkpoint holds. *)
Theorem loaded_mapping_keeps_shapes (path : string) (model : Model)
    (logger : option Logger) (w : World) source :
  disk w !! path = Some (RegularFile (Some source)) →
  ∃ w' new_dict result,
    load_pretrain_model path model logger w = (w', Return new_dict)
    ∧ heap w' !! new_dict = Some result
    ∧ ∀ k v, dict_get (parameters model) k = Some v →
        ∃ r, dict_get result k = Some r ∧ shape r = shape v.
Proof.
  intros Hfile. eexists _, _, (merged source (parameters model)).
  split; [by apply load_pretrain_model_run|]. split.
  - cbn. destruct logger; apply lookup_second_fresh.
  - intros k v Hk. exists (transfer source k v).
    split; [by rewrite merged_get, Hk|apply transfer_shape].
Qed.

Lemma loaded_mapping_keeps_shapes_witness :
  ∃ w' new_dict result,
    load_pretrain_model "ckpt.pth" scenario_model None checkpoint_world
      = (w', Return new_dict)
    ∧ heap w' !! new_dict = Some result
    ∧ ∀ k v, dict_get (parameters scenario_model) k = Some v →
        ∃ r, dict_get result k = Some r ∧ shape r = shape v.
Proof.
  apply (loaded_mapping_keeps_shapes "ckpt.pth" scenario_model None
           checkpoint_world scenario_checkpoint).
  reflexivity.
Defined.

(** X8. When the checkpoint has every key of the model with the model's
    shape, every value of the result is the checkpoint's and nothing is
    logged. *)
Theorem full_checkpoint_loads_everything (path : string) (model : Model)
    (logger : option Logger) (w : World) source :
  disk w !! path = Some (RegularFile (Some source)) →
  (∀ k v, dict_get (parameters model) k = Some v →
     ∃ s, dict_get source k = Some s ∧ shape v = shape s) →
  ∃ w' new_dict result,
    load_pretrain_model path model logger w = (w', Return new_dict)
    ∧ heap w' !! new_dict = Some result
    ∧ (∀ k, k ∈ dict_keys (parameters model) →
         dict_get result k = dict_get source k)
    ∧ log w' = log w.
Proof.
  intros Hfile Hfull. eexists _, _, (merged source (parameters model)).
  split; [by apply load_pretrain_model_run|]. split; [|split].
  - cbn. destruct logger; apply lookup_second_fresh.
  - intros k [v Hv]%dict_get_is_Some.
    destruct (Hfull k v Hv) as (s & Hs & Hshape).
    rewrite merged_get, Hv. cbn. unfold transfer.
    by rewrite Hs, bool_decide_eq_true_2.
  - assert (Hnone : not_loaded source (parameters model) = []).
    { destruct (not_loaded source (parameters model)) as [|k l] eqn:E; [done|].
      assert (Hk : k ∈ not_loaded source (parameters model))
        by (rewrite E; apply list_elem_of_here).
      apply not_loaded_spec in Hk as (v & Hv & Hcase).
      destruct (Hfull k v Hv) as (s & Hs & Hshape).
      destruct Hcase as [?|(s' & Hs' & Hne)]; congruence. }
    cbn. rewrite Hnone. cbn. rewrite app_nil_r. by destruct logger.
Qed.

Lemma full_checkpoint_loads_everything_witness :
  ∃ w' new_dict result,
    load_pretrain_model "ckpt.pth" {| parameters := [("a", zeros [3; 3]%nat)] |}
      None checkpoint_world = (w', Return new_dict)
    ∧ heap w' !! new_dict = Some result
    ∧ (∀ k, k ∈ dict_keys [("a", zeros [3; 3]%nat)] →
         dict_get result k = dict_get scenario_checkpoint k)
    ∧ log w' = log checkpoint_world.
Proof.
  apply (full_checkpoint_loads_everything "ckpt.pth"
           {| parameters := [("a", zeros [3; 3]%nat)] |} None
           checkpoint_world scenario_checkpoint).
  - reflexivity.
  - intros k v. cbn. destruct (decide ("a" = k)) as [<-|]; [|done].
    intros [= <-]. by exists (ones [3; 3]%nat).
Defined.

End LoaderMore.

(** ** val_loop: frame, empty batches *)

Section ValLoopMore.

Context {Images Aux1 Aux2 Net Decoder Device : Type}.
Variable predict : Images → Net → Decoder → Device → list string.
Variables get_accuracy wer cer : list string → list string → Qc.
Variable format_4f : Qc → string.

Implicit Types (data_loader : list (@Batch Images Aux1 Aux2))
  (model : Net) (decoder : Decoder) (device : Device)
  (metric : list string → list string → Qc).




(** The run of [val_loop], as in the statement of C9. *)
Lemma val_loop_run data_loader model decoder (logger : Logger) device
    (strat_time end_time : Qc) (w : World) :
  match data_loader with [] => True | batch :: _ => batch_texts batch ≠ [] end →
  val_loop predict get_accuracy wer cer format_4f data_loader model decoder
    logger device strat_time end_time w
  = (set_log (λ l, l ++ [{| logger_name := logger; level := INFO;
                            message := validation_msg format_4f
                              (weighted_average (scored predict get_accuracy model decoder device data_loader))
                              (weighted_average (scored predict wer model decoder device data_loader))
                              (weighted_average (scored predict cer model decoder device data_loader))
                              (sec2min (end_time - strat_time)%Qc) |}]) w,
     Return (weighted_average
               (scored predict get_accuracy model decoder device data_loader))).
Proof.
  intros Hfirst.
  destruct (updates_on_reset
              (scored predict get_accuracy model decoder device data_loader))
    as (a & Ha & Havg_a & _); [by apply scored_first|apply scored_weights|].
  destruct (updates_on_reset
              (scored predict wer model decoder device data_loader))
    as (b & Hb & Havg_b & _); [by apply scored_first|apply scored_weights|].
  destruct (updates_on_reset
              (scored predict cer model decoder device data_loader))
    as (c & Hc & Havg_c & _); [by apply scored_first|apply scored_weights|].
  unfold val_loop.
  rewrite (val_steps_split predict get_accuracy wer cer model decoder device
             data_loader
             {| acc_avg := AverageMeter.init; wer_avg := AverageMeter.init;
                cer_avg := AverageMeter.init |} a b c Ha Hb Hc).
  cbn [acc_avg wer_avg cer_avg]. rewrite Havg_a, Havg_b, Havg_c.
  reflexivity.
Qed.

Lemma weighted_average_perm (calls calls' : list (Qc * Z)) :
  calls ≡ₚ calls' → weighted_average calls = weighted_average calls'.
Proof.
  intros Hp. unfold weighted_average.
  by rewrite (weighted_sum_perm _ _ Hp), (total_weight_perm _ _ Hp).
Qed.

Lemma weighted_average_zero_weight (v : Qc) (calls : list (Qc * Z)) :
  weighted_average ((v, 0%Z) :: calls) = weighted_average calls.
Proof.
  unfold weighted_average.
  cbn [AverageMeter.weighted_sum AverageMeter.total_weight].
  by rewrite Z2Qc_inj_0, Qcmult_0_r, Qcplus_0_l, Z.add_0_l.
Qed.

Lemma scored_perm metric model decoder device data_loader data_loader' :
  data_loader ≡ₚ data_loader' →
  scored predict metric model decoder device data_loader
  ≡ₚ scored predict metric model decoder device data_loader'.
Proof. intros Hp. unfold scored. by apply Permutation_map. Qed.

(** X10. A batch without texts that is not the first one has no effect on
    the value returned and the line logged. *)
Theorem val_loop_ignores_later_empty_batch (first empty : @Batch Images Aux1 Aux2)
    (before after : list (@Batch Images Aux1 Aux2)) model decoder
    (logger : Logger) device (strat_time end_time : Qc) (w : World) :
  batch_texts first ≠ [] →
  batch_texts empty = [] →
  val_loop predict get_accuracy wer cer format_4f
    (first :: before ++ empty :: after) model decoder logger device
    strat_time end_time w
  = val_loop predict get_accuracy wer cer format_4f
      (first :: before ++ after) model decoder logger device
      strat_time end_time w.
Proof.
  intros Hfirst Hempty. rewrite !val_loop_run by done.
  assert (Hdrop : ∀ metric,
            weighted_average (scored predict metric model decoder device
                                (first :: before ++ empty :: after))
            = weighted_average (scored predict metric model decoder device
                                  (first :: before ++ after))).
  { intros metric.
    assert (Hp : first :: before ++ empty :: after
                 ≡ₚ empty :: first :: before ++ after).
    { symmetry. apply (Permutation_middle (first :: before) after empty). }
    rewrite (weighted_average_perm _ _
               (scored_perm metric model decoder device _ _ Hp)).
    destruct empty as [[[images texts] x1] x2]. cbn in Hempty. subst texts.
    change (scored predict metric model decoder device
              ((images, [], x1, x2) :: first :: before ++ after))
      with ((metric [] (predict images model decoder device), 0%Z)
            :: scored predict metric model decoder device
                 (first :: before ++ after)).
    apply weighted_average_zero_weight. }
  by rewrite !Hdrop.
Qed.

End ValLoopMore.

Lemma val_loop_ignores_later_empty_batch_witness :
  val_loop sample_predict sample_accuracy sample_error sample_error
    sample_format
    (((), ["cat"; "dog"], (), ()) :: [] ++ ((), [], (), ()) :: [((), ["bird"], (), ())])
    () () module_logger () 0%Qc 1%Qc checkpoint_world
  = val_loop sample_predict sample_accuracy sample_error sample_error
      sample_format
      (((), ["cat"; "dog"], (), ()) :: [] ++ [((), ["bird"], (), ())])
      () () module_logger () 0%Qc 1%Qc checkpoint_world.
Proof.
  apply (val_loop_ignores_later_empty_batch sample_predict sample_accuracy
           sample_error sample_error sample_format
           ((), ["cat"; "dog"], (), ()) ((), [], (), ()) []
           [((), ["bird"], (), ())]).
  - simpl. discriminate.
  - reflexivity.
Defined.
